(** * Wait/retry utilities, authenticated fixture and header badge

    A shallow embedding of the timing and lifecycle logic of the test
    framework: [WaitUtil.waitForCondition], [WaitUtil.retryUntilSuccess]
    and [WaitUtil.waitForConsoleMessage] (src/utils/wait.util.ts), the
    [authenticatedPage] fixture (src/fixtures/auth.fixture.ts) and
    [HeaderComponent.getNotificationCount].

    Asynchronous functions are written in a state-and-exception monad.
    For the wait utilities the state is a [world] that holds the wall
    clock and a log of the calls made to the outside (condition
    evaluations, sleeps, action attempts).  What the outside answers is
    given by oracles: how the i-th evaluation of a condition settles, the
    time it takes, the lateness of a timer. *)

From Stdlib Require Import ZArith List String Bool Lia Ascii.
From Stdlib Require Import DecimalString DecimalPos.
Import ListNotations.
Local Open Scope Z_scope.

(** ** JavaScript values the code observes *)

Module Js.

(** An [Error] object; the code reads nothing but its [message]. *)
Record Error : Type := mkError { message : string }.

(** How an awaited promise settles. *)
Inductive settled (A : Type) : Type :=
| Fulfilled (a : A)
| Rejected (e : Error).
Arguments Fulfilled {A} a.
Arguments Rejected {A} e.

(** A number as parseInt returns it. *)
Inductive number : Type :=
| Num (z : Z)
| NaN.

(** Template-literal conversion of an integral number. *)
Definition number_toString (z : Z) : string :=
  NilZero.string_of_int (Z.to_int z).

(** [s || d] on a string that may be null or undefined: the empty string
    is falsy too. *)
Definition or_default (s : option string) (d : string) : string :=
  match s with
  | Some EmptyString => d
  | Some s' => s'
  | None => d
  end.

(** String.prototype.includes *)
Definition includes (text search : string) : bool :=
  match index 0 search text with
  | Some _ => true
  | None => false
  end.

(** White space that parseInt skips (the one-byte characters of
    StrWhiteSpaceChar). *)
Definition is_white (c : ascii) : bool :=
  let n := nat_of_ascii c in
  (Nat.eqb n 9 || Nat.eqb n 10 || Nat.eqb n 11 || Nat.eqb n 12
   || Nat.eqb n 13 || Nat.eqb n 32)%bool.

Fixpoint trim_start (s : string) : string :=
  match s with
  | String c s' => if is_white c then trim_start s' else s
  | EmptyString => s
  end.

(** The value of a character as a digit of the radix, if it is one. *)
Definition digit_value (radix : Z) (c : ascii) : option Z :=
  let n := Z.of_nat (nat_of_ascii c) in
  let v := if (48 <=? n) && (n <=? 57) then Some (n - 48)
           else if (97 <=? n) && (n <=? 122) then Some (n - 87)
           else if (65 <=? n) && (n <=? 90) then Some (n - 55)
           else None in
  match v with
  | Some d => if d <? radix then Some d else None
  | None => None
  end.

(** The integer spelled by the longest prefix of digits; [None] when that
    prefix is empty. *)
Fixpoint digits_prefix (radix : Z) (s : string) (acc : option Z) : option Z :=
  match s with
  | EmptyString => acc
  | String c s' =>
      match digit_value radix c with
      | Some d =>
          digits_prefix radix s'
            (Some (match acc with Some a => a * radix + d | None => d end))
      | None => acc
      end
  end.

(** parseInt(s) without a radix. *)
Definition parseInt (s : string) : number :=
  let s1 := trim_start s in
  let '(sign, s2) :=
    match s1 with
    | String "-"%char r => (-1, r)
    | String "+"%char r => (1, r)
    | _ => (1, s1)
    end in
  let '(radix, s3) :=
    match s2 with
    | String "0"%char (String "x"%char r) => (16, r)
    | String "0"%char (String "X"%char r) => (16, r)
    | _ => (10, s2)
    end in
  match digits_prefix radix s3 None with
  | Some m => Num (sign * m)
  | None => NaN
  end.


End Js.
Import Js.

(** ** The monad of asynchronous code *)

Inductive outcome (A : Type) : Type :=
| Return (a : A)
| Throw (e : Error)
| OutOfFuel.
Arguments Return {A} a.
Arguments Throw {A} e.
Arguments OutOfFuel {A}.

Definition M (S A : Type) : Type := S -> outcome A * S.

Definition ret {S A} (a : A) : M S A := fun w => (Return a, w).

Definition throw {S A} (e : Error) : M S A := fun w => (Throw e, w).

Definition bind {S A B} (m : M S A) (k : A -> M S B) : M S B :=
  fun w =>
    match m w with
    | (Return a, w') => k a w'
    | (Throw e, w') => (Throw e, w')
    | (OutOfFuel, w') => (OutOfFuel, w')
    end.

(** try { m } catch (error) { h error } *)
Definition try_catch {S A} (m : M S A) (h : Error -> M S A) : M S A :=
  fun w =>
    match m w with
    | (Throw e, w') => h e w'
    | r => r
    end.

Notation "x <- m ;; k" := (bind m (fun x => k))
  (at level 61, m at next level, right associativity).
Notation "m ;;; k" := (bind m (fun _ => k))
  (at level 61, right associativity).

(** ** The world of the wait utilities *)

Inductive event : Type :=
| EvCondition (i : nat)
| EvSleep (ms : Z)
| EvAction (attempt : Z).

(** [now] is what Date.now() returns, [timers_set] counts the timers
    created so far, [log] holds the calls, the most recent first:
    [EvCondition i] the i-th evaluation of the condition, [EvSleep ms] a
    call of sleep(ms), [EvAction a] the action of a retry at attempt a. *)
Record world : Type := mkWorld {
  now : Z;
  timers_set : nat;
  log : list event
}.

Definition dateNow : M world Z := fun w => (Return (now w), w).

Fixpoint count_evals (l : list event) : nat :=
  match l with
  | [] => O
  | EvCondition _ :: l' => S (count_evals l')
  | _ :: l' => count_evals l'
  end.

Fixpoint count_actions (l : list event) : nat :=
  match l with
  | [] => O
  | EvAction _ :: l' => S (count_actions l')
  | _ :: l' => count_actions l'
  end.

(** The arguments of the sleeps, the most recent first. *)
Fixpoint sleeps_of (l : list event) : list Z :=
  match l with
  | [] => []
  | EvSleep ms :: l' => ms :: sleeps_of l'
  | _ :: l' => sleeps_of l'
  end.

(** ** WaitUtil *)

Module WaitUtil.

Definition DEFAULT_TIMEOUT : Z := 30000.
Definition POLL_INTERVAL : Z := 500.

(** timeout: number = this.DEFAULT_TIMEOUT *)
Definition timeout_or_default (timeout : option Z) : Z :=
  match timeout with
  | Some t => t
  | None => DEFAULT_TIMEOUT
  end.

(** errorMessage: string = 'Condition not met' *)
Definition errorMessage_or_default (errorMessage : option string) : string :=
  match errorMessage with
  | Some s => s
  | None => "Condition not met"%string
  end.

Section Env.

(** The n-th timer fires [timer_lag n] ms after it is due. *)
Variable timer_lag : nat -> nat.

(** sleep(ms): a promise resolved by setTimeout(resolve, ms). *)
Definition sleep (ms : Z) : M world unit :=
  fun w =>
    (Return tt,
     {| now := now w + Z.max 0 ms + Z.of_nat (timer_lag (timers_set w));
        timers_set := S (timers_set w);
        log := EvSleep ms :: log w |}).

Section Poller.

(** [condition i t]: how the i-th evaluation (counted from 0 within one
    wait), started at time [t], settles; it takes [condition_cost i] ms. *)
Variable condition : nat -> Z -> settled bool.
Variable condition_cost : nat -> nat.

Definition await_condition (i : nat) : M world bool :=
  fun w =>
    let w' := {| now := now w + Z.of_nat (condition_cost i);
                 timers_set := timers_set w;
                 log := EvCondition i :: log w |} in
    match condition i (now w) with
    | Fulfilled b => (Return b, w')
    | Rejected e => (Throw e, w')
    end.

(** The while loop of waitForCondition and the throw behind it; [i]
    counts the iterations done. *)
Fixpoint poll (fuel : nat) (i : nat) (startTime timeout : Z)
         (errorMessage : string) : M world unit :=
  match fuel with
  | O => fun w => (OutOfFuel, w)
  | S fuel' =>
      t <- dateNow ;;
      if t - startTime <? timeout then
        b <- await_condition i ;;
        if b : bool then ret tt
        else sleep POLL_INTERVAL ;;;
             poll fuel' (S i) startTime timeout errorMessage
      else
        throw (mkError (errorMessage ++ " within "
                        ++ number_toString timeout ++ "ms")%string)
  end.

(** An iteration that does not return sleeps POLL_INTERVAL, so this many
    iterations use up any budget. *)
Definition poll_fuel (timeout : Z) : nat :=
  (Z.to_nat (timeout / POLL_INTERVAL) + 2)%nat.

Definition waitForCondition (timeout : option Z)
           (errorMessage : option string) : M world unit :=
  let timeout := timeout_or_default timeout in
  let errorMessage := errorMessage_or_default errorMessage in
  startTime <- dateNow ;;
  poll (poll_fuel timeout) O startTime timeout errorMessage.

(** The world after the i-th evaluation. *)
Definition tick (i : nat) (w : world) : world :=
  snd (await_condition i w).

(** The world after the i-th evaluation and the sleep behind it. *)
Definition miss (i : nat) (w : world) : world :=
  snd (sleep POLL_INTERVAL (tick i w)).

(** The world after [j] such iterations, the first of them of index [i]. *)
Fixpoint misses_from (i j : nat) (w : world) : world :=
  match j with
  | O => w
  | S j' => misses_from (S i) j' (miss i w)
  end.

End Poller.

Section Retry.

(** [action a]: how the action settles when called at attempt [a]
    (counted from 1 within one retry); the call takes [action_cost a] ms. *)
Variable T : Type.
Variable action : Z -> settled T.
Variable action_cost : Z -> nat.

Definition await_action (attempt : Z) : M world T :=
  fun w =>
    let w' := {| now := now w + Z.of_nat (action_cost attempt);
                 timers_set := timers_set w;
                 log := EvAction attempt :: log w |} in
    match action attempt with
    | Fulfilled v => (Return v, w')
    | Rejected e => (Throw e, w')
    end.

(** `${lastError?.message}` *)
Definition lastError_message (lastError : option Error) : string :=
  match lastError with
  | Some e => message e
  | None => "undefined"%string
  end.

(** The for loop of retryUntilSuccess and the throw behind it. *)
Fixpoint retry_loop (fuel : nat) (attempt : Z) (lastError : option Error)
         (maxAttempts delayMs : Z) : M world T :=
  match fuel with
  | O => fun w => (OutOfFuel, w)
  | S fuel' =>
      if attempt <=? maxAttempts then
        try_catch (await_action attempt)
          (fun error =>
             (if attempt <? maxAttempts then sleep delayMs else ret tt) ;;;
             retry_loop fuel' (attempt + 1) (Some error) maxAttempts delayMs)
      else
        throw (mkError ("Action failed after " ++ number_toString maxAttempts
                        ++ " attempts. Last error: "
                        ++ lastError_message lastError)%string)
  end.

Definition retry_fuel (maxAttempts : Z) : nat :=
  S (Z.to_nat maxAttempts).

Definition retryUntilSuccess (maxAttempts delayMs : option Z) : M world T :=
  let maxAttempts := match maxAttempts with Some n => n | None => 3 end in
  let delayMs := match delayMs with Some d => d | None => 1000 end in
  retry_loop (retry_fuel maxAttempts) 1 None maxAttempts delayMs.

(** The world after attempt [a] failed and, when attempts remain, the
    delay behind it. *)
Definition failed_attempt (maxAttempts delayMs a : Z) (w : world) : world :=
  let w' := snd (await_action a w) in
  if a <? maxAttempts then snd (sleep delayMs w') else w'.

(** The world after [j] failed attempts in a row, the first of them
    attempt [a]. *)
Fixpoint failures_from (maxAttempts delayMs a : Z) (j : nat) (w : world)
  : world :=
  match j with
  | O => w
  | S j' =>
      failures_from maxAttempts delayMs (a + 1) j'
        (failed_attempt maxAttempts delayMs a w)
  end.

End Retry.

End Env.

(** *** waitForConsoleMessage: a promise, a timer and a listener *)

Inductive expected : Type :=
| ExpString (s : string)
| ExpRegExp (source : string) (test : string -> bool).

Definition expected_toString (e : expected) : string :=
  match e with
  | ExpString s => s
  | ExpRegExp source _ => ("/" ++ source ++ "/")%string
  end.

(** The listeners of the page's 'console' event, the oldest first, and the
    timers that are set and have neither fired nor been cleared. *)
Record page : Type := mkPage {
  console_listeners : list nat;
  pending_timers : list nat
}.

Inductive promise_state : Type :=
| Pending
| Resolved
| RejectedWith (e : Error).

Record console_wait : Type := mkConsoleWait {
  the_page : page;
  promise : promise_state
}.

(** What one call holds in its closure. *)
Record console_call : Type := mkConsoleCall {
  call_expected : expected;
  call_timeout : Z;
  call_timer : nat;
  call_handler : nat
}.

Definition fresh (l : list nat) : nat := S (list_max l).

Fixpoint remove_nat (x : nat) (l : list nat) : list nat :=
  match l with
  | [] => []
  | y :: l' => if Nat.eqb x y then remove_nat x l' else y :: remove_nat x l'
  end.

(** Removes the first occurrence. *)
Fixpoint remove_first (x : nat) (l : list nat) : list nat :=
  match l with
  | [] => []
  | y :: l' => if Nat.eqb x y then l' else y :: remove_first x l'
  end.

Definition setTimeout (p : page) : nat * page :=
  let id := fresh (pending_timers p) in
  (id, {| console_listeners := console_listeners p;
          pending_timers := id :: pending_timers p |}).

Definition clearTimeout (id : nat) (p : page) : page :=
  {| console_listeners := console_listeners p;
     pending_timers := remove_nat id (pending_timers p) |}.

(** page.on('console', h) appends the listener. *)
Definition page_on (h : nat) (p : page) : page :=
  {| console_listeners := console_listeners p ++ [h];
     pending_timers := pending_timers p |}.

(** page.off('console', h) removes the most recently added instance. *)
Definition page_off (h : nat) (p : page) : page :=
  {| console_listeners := rev (remove_first h (rev (console_listeners p)));
     pending_timers := pending_timers p |}.

(** resolve() and reject(e) settle a promise that is pending and do
    nothing to a settled one. *)
Definition settle (s : promise_state) (st : console_wait) : console_wait :=
  match promise st with
  | Pending => {| the_page := the_page st; promise := s |}
  | _ => st
  end.

Definition on_page (f : page -> page) (st : console_wait) : console_wait :=
  {| the_page := f (the_page st); promise := promise st |}.

Definition matches (e : expected) (text : string) : bool :=
  match e with
  | ExpString s => includes text s
  | ExpRegExp _ test => test text
  end.

(** The body of the promise executor: set the timer, register the
    handler. *)
Definition waitForConsoleMessage (expectedMessage : expected)
           (timeout : option Z) (p : page) : console_call * console_wait :=
  let timeout := timeout_or_default timeout in
  let '(timer, p1) := setTimeout p in
  let handler := fresh (console_listeners p1) in
  ({| call_expected := expectedMessage; call_timeout := timeout;
      call_timer := timer; call_handler := handler |},
   {| the_page := page_on handler p1; promise := Pending |}).

(** The double quote character, as a string. *)
Definition dquote : string := String (ascii_of_nat 34) EmptyString.

(** The error of the timer callback. *)
Definition not_found (c : console_call) : Error :=
  mkError ("Console message " ++ dquote
           ++ expected_toString (call_expected c)
           ++ dquote ++ " not found within "
           ++ number_toString (call_timeout c) ++ "ms")%string.

(** The callback given to setTimeout. *)
Definition timer_callback (c : console_call) (st : console_wait)
  : console_wait :=
  settle (RejectedWith (not_found c))
    (on_page (page_off (call_handler c)) st).

(** The listener given to page.on. *)
Definition handler (c : console_call) (text : string) (st : console_wait)
  : console_wait :=
  if matches (call_expected c) text then
    settle Resolved
      (on_page (page_off (call_handler c))
         (on_page (clearTimeout (call_timer c)) st))
  else st.

(** What the event loop delivers: a console message of the page, or a
    timer that is due. *)
Inductive loop_event : Type :=
| ConsoleMessage (text : string)
| TimerDue (id : nat).

Definition deliver (c : console_call) (ev : loop_event) (st : console_wait)
  : console_wait :=
  match ev with
  | ConsoleMessage text =>
      if existsb (Nat.eqb (call_handler c)) (console_listeners (the_page st))
      then handler c text st
      else st
  | TimerDue id =>
      if existsb (Nat.eqb id) (pending_timers (the_page st)) then
        let st' := on_page (clearTimeout id) st in
        if Nat.eqb id (call_timer c) then timer_callback c st' else st'
      else st
  end.

Definition deliver_all (c : console_call) (evs : list loop_event)
           (st : console_wait) : console_wait :=
  fold_left (fun s ev => deliver c ev s) evs st.

(** The events that end a call that is pending: a console message that
    matches, and the call's own timer. *)
Definition settles (c : console_call) (ev : loop_event) : bool :=
  match ev with
  | ConsoleMessage text => matches (call_expected c) text
  | TimerDue id => Nat.eqb id (call_timer c)
  end.

(** How such an event settles the promise. *)
Definition settled_by (c : console_call) (ev : loop_event) : promise_state :=
  match ev with
  | ConsoleMessage _ => Resolved
  | TimerDue _ => RejectedWith (not_found c)
  end.

(** The call is pending on a page that was [p0] before it: its handler is
    the last listener and its timer is set. *)
Definition registered (c : console_call) (p0 : page) (st : console_wait)
  : Prop :=
  promise st = Pending
  /\ console_listeners (the_page st)
     = console_listeners p0 ++ [call_handler c]
  /\ In (call_timer c) (pending_timers (the_page st)).

(** The call is over and has left the listeners as they were and no timer
    of its own. *)
Definition cleaned (c : console_call) (p0 : page) (st : console_wait)
  : Prop :=
  promise st <> Pending
  /\ console_listeners (the_page st) = console_listeners p0
  /\ ~ In (call_timer c) (pending_timers (the_page st)).

End WaitUtil.

(** ** The authenticatedPage fixture *)

Module AuthFixture.

Inductive locator : Type :=
| UsernameInput
| PasswordInput
| LoginButton
| RememberMeCheckbox.

(** What the fixture asks of the browser, and the run of the test body by
    the test runner.  Contexts and pages are named by numbers. *)
Inductive fixture_event : Type :=
| NewContext (context : nat)
| NewPage (context page : nat)
| PageGoto (page : nat) (url : string)
| WaitForLoadState (page : nat) (state : string)
| LocatorFill (page : nat) (l : locator) (text : string)
| LocatorCheck (page : nat) (l : locator)
| LocatorClick (page : nat) (l : locator)
| WaitForURL (page : nat) (timeout : Z)
| TestBody (page : nat) (verdict : settled unit)
| ContextClose (context : nat).

(** [calls] holds the events, the most recent first. *)
Record browser : Type := mkBrowser {
  contexts_made : nat;
  pages_made : nat;
  calls : list fixture_event
}.

Definition is_close (context : nat) (e : fixture_event) : bool :=
  match e with
  | ContextClose c => Nat.eqb c context
  | _ => false
  end.

Definition count_closes (context : nat) (l : list fixture_event) : nat :=
  List.length (filter (is_close context) l).

Section Driver.

(** [driver_fails n]: the error with which the n-th call to the browser
    rejects, if it does. *)
Variable driver_fails : nat -> option Error.

(** process.env *)
Variable env : string -> option string.

Definition perform (e : fixture_event) : M browser unit :=
  fun b =>
    let b' := {| contexts_made := contexts_made b;
                 pages_made := pages_made b;
                 calls := e :: calls b |} in
    match driver_fails (List.length (calls b)) with
    | None => (Return tt, b')
    | Some err => (Throw err, b')
    end.

(** browser.newContext() *)
Definition newContext : M browser nat :=
  fun b =>
    let c := contexts_made b in
    let b' := {| contexts_made := S c;
                 pages_made := pages_made b;
                 calls := calls b |} in
    match perform (NewContext c) b' with
    | (Return _, b'') => (Return c, b'')
    | (Throw err, b'') => (Throw err, b'')
    | (OutOfFuel, b'') => (OutOfFuel, b'')
    end.

(** context.newPage() *)
Definition newPage (context : nat) : M browser nat :=
  fun b =>
    let p := pages_made b in
    let b' := {| contexts_made := contexts_made b;
                 pages_made := S p;
                 calls := calls b |} in
    match perform (NewPage context p) b' with
    | (Return _, b'') => (Return p, b'')
    | (Throw err, b'') => (Throw err, b'')
    | (OutOfFuel, b'') => (OutOfFuel, b'')
    end.

(** context.close() *)
Definition context_close (context : nat) : M browser unit :=
  perform (ContextClose context).

(** A LoginPage object: the page it wraps and its url. *)
Record LoginPage : Type := mkLoginPage {
  lp_page : nat;
  url : string
}.

Definition new_LoginPage (page : nat) : LoginPage :=
  {| lp_page := page; url := "/login" |}.

(** BasePage.goto *)
Definition BasePage_goto (page : nat) (u : string) : M browser unit :=
  perform (PageGoto page u).

(** BasePage.waitForPageLoad *)
Definition waitForPageLoad (page : nat) : M browser unit :=
  perform (WaitForLoadState page "domcontentloaded") ;;;
  perform (WaitForLoadState page "networkidle").

(** LoginPage.goto *)
Definition goto (lp : LoginPage) : M browser unit :=
  BasePage_goto (lp_page lp) (url lp) ;;;
  waitForPageLoad (lp_page lp).

Definition fillUsername (lp : LoginPage) (username : string)
  : M browser unit :=
  perform (LocatorFill (lp_page lp) UsernameInput username).

Definition fillPassword (lp : LoginPage) (password : string)
  : M browser unit :=
  perform (LocatorFill (lp_page lp) PasswordInput password).

Definition clickLogin (lp : LoginPage) : M browser unit :=
  perform (LocatorClick (lp_page lp) LoginButton).

(** LoginPage.login *)
Definition login (lp : LoginPage) (username password : string)
           (rememberMe : bool) : M browser unit :=
  fillUsername lp username ;;;
  fillPassword lp password ;;;
  (if rememberMe then perform (LocatorCheck (lp_page lp) RememberMeCheckbox)
   else ret tt) ;;;
  clickLogin lp ;;;
  perform (WaitForLoadState (lp_page lp) "networkidle").

(** The fixture up to the point where it hands the page over: the states
    Uninitialized, LoggingIn and, when this returns, Ready. *)
Definition authenticatedPage_setup : M browser (nat * nat) :=
  context <- newContext ;;
  page <- newPage context ;;
  let loginPage := new_LoginPage page in
  goto loginPage ;;;
  let username := or_default (env "TEST_USERNAME") "testuser" in
  let password := or_default (env "TEST_PASSWORD") "testpass123" in
  login loginPage username password false ;;;
  perform (WaitForURL page 10000) ;;;
  ret (context, page).

(** The fixture function, over the [use] callback it is given. *)
Definition authenticatedPage (use : nat -> M browser unit)
  : M browser unit :=
  cp <- authenticatedPage_setup ;;
  use (snd cp) ;;;
  context_close (fst cp).

(** The [use] of the test runner: the test body runs with the page to its
    end, the runner keeps its verdict (passed, or failed with the error it
    threw) for the report, and the promise resolves when teardown starts.
    A test body that throws does not reject this promise. *)
Definition runner_use (verdict : settled unit) (page : nat)
  : M browser unit :=
  fun b =>
    (Return tt,
     {| contexts_made := contexts_made b;
        pages_made := pages_made b;
        calls := TestBody page verdict :: calls b |}).

End Driver.

End AuthFixture.

(** ** HeaderComponent.getNotificationCount *)

Module HeaderComponent.

Inductive locator_call : Type :=
| CallIsVisible
| CallTextContent.

(** What the notification badge answers: whether it is visible, and how
    textContent() settles (a string, or null). *)
Record badge : Type := mkBadge {
  badge_visible : settled bool;
  badge_text : settled (option string)
}.

Definition await {A} (c : locator_call) (r : settled A)
  : M (list locator_call) A :=
  fun l =>
    match r with
    | Fulfilled a => (Return a, c :: l)
    | Rejected e => (Throw e, c :: l)
    end.

Definition isVisible (b : badge) : M (list locator_call) bool :=
  await CallIsVisible (badge_visible b).

Definition textContent (b : badge) : M (list locator_call) (option string) :=
  await CallTextContent (badge_text b).

Definition getNotificationCount (notificationBadge : badge)
  : M (list locator_call) number :=
  visible <- isVisible notificationBadge ;;
  if negb visible then ret (Num 0)
  else
    text <- textContent notificationBadge ;;
    ret (parseInt (or_default text "0")).

End HeaderComponent.

(** ** WaitUtil: the waiters that poll a locator *)

Module LocatorWaits.

(** currentText !== initialText, for a text that may be null *)
Definition text_differs (initialText : string) (currentText : option string)
  : bool :=
  match currentText with
  | Some s => negb (String.eqb s initialText)
  | None => true
  end.

Section Locator.

Variable timer_lag : nat -> nat.

(** [read i t]: how the i-th read of the locator within one wait, a call
    of textContent() or of count() begun at time [t], settles; it takes
    [read_cost i] ms.  A read is what evaluates the condition of these
    waits, and is logged as [EvCondition i]. *)
Variable A : Type.
Variable read : nat -> Z -> settled A.
Variable read_cost : nat -> nat.

Definition await_read (i : nat) : M world A :=
  fun w =>
    let w' := {| now := now w + Z.of_nat (read_cost i);
                 timers_set := timers_set w;
                 log := EvCondition i :: log w |} in
    match read i (now w) with
    | Fulfilled v => (Return v, w')
    | Rejected e => (Throw e, w')
    end.

(** The while loop that waitForTextToChange, waitForElementCount and
    waitForMinimumElementCount are written with,
    and what follows it: [done] is the test on the value read, [giveUp]
    the code behind the loop; [i] counts the reads made. *)
Fixpoint poll_read (fuel : nat) (i : nat) (startTime timeout : Z)
         (done : A -> bool) (giveUp : nat -> M world unit) : M world unit :=
  match fuel with
  | O => fun w => (OutOfFuel, w)
  | S fuel' =>
      t <- dateNow ;;
      if t - startTime <? timeout then
        v <- await_read i ;;
        if done v then ret tt
        else WaitUtil.sleep timer_lag WaitUtil.POLL_INTERVAL ;;;
             poll_read fuel' (S i) startTime timeout done giveUp
      else giveUp i
  end.

(** The world after the i-th read. *)
Definition after_read (i : nat) (w : world) : world :=
  snd (await_read i w).

(** The world after the i-th read and the sleep behind it. *)
Definition read_miss (i : nat) (w : world) : world :=
  snd (WaitUtil.sleep timer_lag WaitUtil.POLL_INTERVAL (after_read i w)).

(** The world after [j] such iterations, the first of them of index [i]. *)
Fixpoint read_misses (i j : nat) (w : world) : world :=
  match j with
  | O => w
  | S j' => read_misses (S i) j' (read_miss i w)
  end.

End Locator.

Section Text.

Variable timer_lag : nat -> nat.
Variable textContent : nat -> Z -> settled (option string).
Variable textContent_cost : nat -> nat.

Definition waitForTextToChange (initialText : string) (timeout : option Z)
  : M world unit :=
  let timeout := WaitUtil.timeout_or_default timeout in
  startTime <- dateNow ;;
  poll_read timer_lag (option string) textContent textContent_cost
    (WaitUtil.poll_fuel timeout) O startTime timeout
    (text_differs initialText)
    (fun _ =>
       throw (mkError ("Text did not change from " ++ WaitUtil.dquote
                       ++ initialText ++ WaitUtil.dquote ++ " within "
                       ++ number_toString timeout ++ "ms")%string)).

End Text.

Section Count.

Variable timer_lag : nat -> nat.
Variable count : nat -> Z -> settled Z.
Variable count_cost : nat -> nat.

(** The code behind the loop of the two count waiters: the count is read
    once more for the message. *)
Definition count_giveUp (describe : Z -> string) (i : nat) : M world unit :=
  actualCount <- await_read Z count count_cost i ;;
  throw (mkError (describe actualCount)).

Definition waitForElementCount (expectedCount : Z) (timeout : option Z)
  : M world unit :=
  let timeout := WaitUtil.timeout_or_default timeout in
  startTime <- dateNow ;;
  poll_read timer_lag Z count count_cost
    (WaitUtil.poll_fuel timeout) O startTime timeout
    (fun c => c =? expectedCount)
    (count_giveUp
       (fun actualCount =>
          ("Expected " ++ number_toString expectedCount
           ++ " elements, but found " ++ number_toString actualCount
           ++ " within " ++ number_toString timeout ++ "ms")%string)).

Definition waitForMinimumElementCount (minCount : Z) (timeout : option Z)
  : M world unit :=
  let timeout := WaitUtil.timeout_or_default timeout in
  startTime <- dateNow ;;
  poll_read timer_lag Z count count_cost
    (WaitUtil.poll_fuel timeout) O startTime timeout
    (fun c => minCount <=? c)
    (count_giveUp
       (fun actualCount =>
          ("Expected at least " ++ number_toString minCount
           ++ " elements, but found " ++ number_toString actualCount
           ++ " within " ++ number_toString timeout ++ "ms")%string)).

End Count.

End LocatorWaits.

(** ** HeaderComponent: the user menu and logout *)

Module HeaderActions.

Import HeaderComponent.

(** What logout asks of the page: userMenu.click(),
    profileMenuItem.waitFor({ state: 'visible' }) and
    logoutButton.click(), with its timeout option if it has one. *)
Inductive header_call : Type :=
| UserMenuClick
| ProfileMenuItemWaitFor
| LogoutButtonClick (timeout : option Z).

(** The calls made, each with whether it succeeded, the most recent
    first. *)
Definition header_log : Type := list (header_call * bool).

Definition is_logout_done (c : header_call * bool) : bool :=
  match c with
  | (LogoutButtonClick _, true) => true
  | _ => false
  end.

Definition is_logout_click (c : header_call * bool) : bool :=
  match c with
  | (LogoutButtonClick _, _) => true
  | _ => false
  end.

Section Page.

(** [fails n]: the error with which the n-th call to the page rejects, if
    it does. *)
Variable fails : nat -> option Error.

Definition perform (c : header_call) : M header_log unit :=
  fun l =>
    match fails (List.length l) with
    | None => (Return tt, (c, true) :: l)
    | Some e => (Throw e, (c, false) :: l)
    end.

Definition openUserMenu : M header_log unit :=
  perform UserMenuClick ;;;
  perform ProfileMenuItemWaitFor.

Definition logout : M header_log unit :=
  try_catch
    (openUserMenu ;;;
     perform (LogoutButtonClick (Some 2000)))
    (fun _ => perform (LogoutButtonClick None)).

End Page.

End HeaderActions.

(** ** The authenticatedPage fixture of base.fixtures.ts *)

Module BaseFixture.

Inductive locator : Type :=
| UsernameInput
| PasswordInput
| LoginButton
| UserProfileMenu
| LogoutButton.

(** What the fixture asks of the page it is given, the run of the test
    body, and what it writes to the console. *)
Inductive page_event : Type :=
| PageGoto (url : string)
| WaitForLoadState (state : string)
| LocatorFill (l : locator) (text : string)
| LocatorClick (l : locator) (force : bool)
| TestBody (verdict : settled unit)
| ConsoleLog (message : string).

Section Driver.

(** [driver_fails n]: the error with which the n-th entry of the log, a
    call to the page, rejects, if it does. *)
Variable driver_fails : nat -> option Error.
Variable env : string -> option string.

Definition perform (e : page_event) : M (list page_event) unit :=
  fun l =>
    match driver_fails (List.length l) with
    | None => (Return tt, e :: l)
    | Some err => (Throw err, e :: l)
    end.

(** console.log *)
Definition console_log (message : string) : M (list page_event) unit :=
  fun l => (Return tt, ConsoleLog message :: l).

(** BasePage *)
Definition navigate (url : string) : M (list page_event) unit :=
  perform (PageGoto url).

Definition waitForPageLoad : M (list page_event) unit :=
  perform (WaitForLoadState "networkidle").

Definition click (l : locator) (force : bool) : M (list page_event) unit :=
  perform (LocatorClick l force).

Definition fill (l : locator) (text : string) : M (list page_event) unit :=
  perform (LocatorFill l text).

(** LoginPage *)
Definition loginUrl : string := "/login".

Definition LoginPage_goto : M (list page_event) unit :=
  navigate loginUrl ;;;
  waitForPageLoad.

Definition login (username password : string) : M (list page_event) unit :=
  fill UsernameInput username ;;;
  fill PasswordInput password ;;;
  click LoginButton false.

(** DashboardPage *)
Definition openUserProfileMenu : M (list page_event) unit :=
  click UserProfileMenu false.

Definition logout : M (list page_event) unit :=
  openUserProfileMenu ;;;
  click LogoutButton false ;;;
  waitForPageLoad.

(** TestDataHelper.getCredentialsFromEnv: username and password. *)
Definition getCredentialsFromEnv : string * string :=
  (or_default (env "TEST_USERNAME") "testuser@qa.com",
   or_default (env "TEST_PASSWORD") "Test@123").

(** The fixture up to the point where it hands the page over. *)
Definition authenticatedPage_setup : M (list page_event) unit :=
  let credentials := getCredentialsFromEnv in
  LoginPage_goto ;;;
  login (fst credentials) (snd credentials) ;;;
  waitForPageLoad.

(** The fixture function, over the [use] callback it is given. *)
Definition authenticatedPage (use : M (list page_event) unit)
  : M (list page_event) unit :=
  authenticatedPage_setup ;;;
  use ;;;
  try_catch logout
    (fun _ => console_log "Logout cleanup skipped or failed").

(** The [use] of the test runner, as for the other fixtures. *)
Definition runner_use (verdict : settled unit) : M (list page_event) unit :=
  fun l => (Return tt, TestBody verdict :: l).

End Driver.

End BaseFixture.

(** ** Concrete environments and runs *)

Module Scenario.

(** Timers that fire on time, evaluations and calls that take no time or
    100 ms each. *)
Definition punctual : nat -> nat := fun _ => O.
Definition instant : nat -> nat := fun _ => O.
Definition slow : nat -> nat := fun _ => 100%nat.

Definition always (b : bool) : nat -> Z -> settled bool :=
  fun _ _ => Fulfilled b.

(** A condition that becomes true at time [tstar] and stays so. *)
Definition true_from (tstar : Z) : nat -> Z -> settled bool :=
  fun _ t => Fulfilled (tstar <=? t).

Definition boom : Error := mkError "boom".

(** A condition that is false until its evaluation of index [k] throws. *)
Definition throws_at (k : nat) : nat -> Z -> settled bool :=
  fun i _ => if Nat.eqb i k then Rejected boom else Fulfilled false.

Definition w_init : world := {| now := 0; timers_set := O; log := [] |}.

Definition instant_call : Z -> nat := fun _ => O.

(** A browser that never fails, an empty process.env, a browser that has
    not been used yet, and a test body that throws. *)
Definition driver_ok : nat -> option Error := fun _ => None.
Definition no_env : string -> option string := fun _ => None.
Definition b_init : AuthFixture.browser :=
  {| AuthFixture.contexts_made := O;
     AuthFixture.pages_made := O;
     AuthFixture.calls := [] |}.
Definition body_fails : settled unit :=
  Rejected (mkError "expect(received).toBe(expected)").

Definition badge_hidden : HeaderComponent.badge :=
  {| HeaderComponent.badge_visible := Fulfilled false;
     HeaderComponent.badge_text := Rejected (mkError "not attached") |}.
Definition badge_empty : HeaderComponent.badge :=
  {| HeaderComponent.badge_visible := Fulfilled true;
     HeaderComponent.badge_text := Fulfilled None |}.

(** A [use] that rejects, as no test runner's does. *)
Definition use_rejects (page : nat) : M AuthFixture.browser unit :=
  throw (mkError "use rejected").

(** An action that fails at attempts 1 and 2 and returns 42 from then on,
    and one that always fails; each error names its attempt. *)
Definition failure (a : Z) : Error :=
  mkError ("attempt " ++ number_toString a)%string.

Definition fails_twice : Z -> settled nat :=
  fun a => if a <? 3 then Rejected (failure a) else Fulfilled 42%nat.

Definition always_fails : Z -> settled nat :=
  fun a => Rejected (failure a).


(** A browser on which the tenth call, page.waitForURL of the fixtures,
    times out: the login is not accepted. *)
Definition login_rejected : nat -> option Error :=
  fun n => if Nat.eqb n 9 then Some (mkError "Timeout 10000ms exceeded")
           else None.

(** A page on which the click on the logout button, the call behind the
    six of the setup, the test body and the click on the profile menu,
    fails. *)
Definition logout_broken : nat -> option Error :=
  fun n => if Nat.eqb n 8 then Some (mkError "Timeout 30000ms exceeded")
           else None.

(** Texts and counts of a locator: a text that is "Loading..." until
    [tstar] and null from then on; a count that goes from 0 to [n] at
    [tstar], and one that falls from 5 to 3 after half a second. *)
Definition text_until (tstar : Z) : nat -> Z -> settled (option string) :=
  fun _ t => Fulfilled (if t <? tstar then Some "Loading..."%string else None).

Definition count_grows (tstar n : Z) : nat -> Z -> settled Z :=
  fun _ t => Fulfilled (if t <? tstar then 0 else n).

Definition count_falls : nat -> Z -> settled Z :=
  fun _ t => Fulfilled (if t <? 500 then 5 else 3).

End Scenario.

(** * Properties of the condition poller *)

Section PollerFacts.

Variable timer_lag : nat -> nat.
Variable condition : nat -> Z -> settled bool.
Variable condition_cost : nat -> nat.

Local Abbreviation poll := (WaitUtil.poll timer_lag condition condition_cost).
Local Abbreviation tick := (WaitUtil.tick condition condition_cost).
Local Abbreviation miss := (WaitUtil.miss timer_lag condition condition_cost).
Local Abbreviation misses_from :=
  (WaitUtil.misses_from timer_lag condition condition_cost).
Local Abbreviation waitForCondition :=
  (WaitUtil.waitForCondition timer_lag condition condition_cost).
Local Abbreviation timeout_error msg timeout :=
  (mkError (msg ++ " within " ++ number_toString timeout ++ "ms")%string).

Lemma now_tick i w :
  now (tick i w) = now w + Z.of_nat (condition_cost i).
Proof.
  unfold WaitUtil.tick, WaitUtil.await_condition.
  destruct (condition i (now w)); reflexivity.
Qed.

Lemma log_tick i w : log (tick i w) = EvCondition i :: log w.
Proof.
  unfold WaitUtil.tick, WaitUtil.await_condition.
  destruct (condition i (now w)); reflexivity.
Qed.

Lemma timers_tick i w : timers_set (tick i w) = timers_set w.
Proof.
  unfold WaitUtil.tick, WaitUtil.await_condition.
  destruct (condition i (now w)); reflexivity.
Qed.

Lemma now_miss i w :
  now (miss i w)
  = now w + Z.of_nat (condition_cost i) + WaitUtil.POLL_INTERVAL
    + Z.of_nat (timer_lag (timers_set w)).
Proof.
  unfold WaitUtil.miss, WaitUtil.sleep; simpl.
  rewrite now_tick, timers_tick. reflexivity.
Qed.

Lemma log_miss i w :
  log (miss i w) = EvSleep WaitUtil.POLL_INTERVAL :: EvCondition i :: log w.
Proof.
  unfold WaitUtil.miss, WaitUtil.sleep; simpl.
  now rewrite log_tick.
Qed.

(** One iteration of the loop. *)
Lemma poll_S f i start timeout msg w :
  poll (S f) i start timeout msg w =
  if now w - start <? timeout then
    match condition i (now w) with
    | Fulfilled true => (Return tt, tick i w)
    | Fulfilled false => poll f (S i) start timeout msg (miss i w)
    | Rejected e => (Throw e, tick i w)
    end
  else (Throw (timeout_error msg timeout), w).
Proof.
  cbn [WaitUtil.poll].
  unfold bind, dateNow, ret, throw, WaitUtil.miss, WaitUtil.tick,
    WaitUtil.await_condition.
  destruct (now w - start <? timeout); [|reflexivity].
  destruct (condition i (now w)) as [[|]|e]; reflexivity.
Qed.

Lemma misses_from_add i d e w :
  misses_from i (d + e) w = misses_from (i + d) e (misses_from i d w).
Proof.
  revert i w; induction d as [|d IH]; intros i w; simpl.
  - now rewrite Nat.add_0_r.
  - rewrite IH. f_equal. lia.
Qed.


(** The clock never runs backwards, and a missed iteration costs a poll
    interval at least. *)
Lemma now_misses_from i j w :
  now w + WaitUtil.POLL_INTERVAL * Z.of_nat j <= now (misses_from i j w).
Proof.
  revert i w; induction j as [|j IH]; intros i w.
  - simpl. lia.
  - cbn [WaitUtil.misses_from]. specialize (IH (S i) (miss i w)).
    rewrite now_miss in IH. unfold WaitUtil.POLL_INTERVAL in *. lia.
Qed.

Lemma now_misses_mono i d j w :
  (d <= j)%nat -> now (misses_from i d w) <= now (misses_from i j w).
Proof.
  intros H. replace j with (d + (j - d))%nat by lia.
  rewrite misses_from_add.
  pose proof (now_misses_from (i + d) (j - d) (misses_from i d w)).
  unfold WaitUtil.POLL_INTERVAL in *. lia.
Qed.

Lemma log_misses_evals i j w :
  count_evals (log (misses_from i j w)) = (count_evals (log w) + j)%nat.
Proof.
  revert i w; induction j as [|j IH]; intros i w; simpl.
  - lia.
  - rewrite IH, log_miss. simpl. lia.
Qed.

Lemma log_misses_sleeps i j w :
  sleeps_of (log (misses_from i j w))
  = repeat WaitUtil.POLL_INTERVAL j ++ sleeps_of (log w).
Proof.
  revert i w; induction j as [|j IH]; intros i w; simpl.
  - reflexivity.
  - rewrite IH, log_miss. simpl.
    change (WaitUtil.POLL_INTERVAL :: sleeps_of (log w))
      with ([WaitUtil.POLL_INTERVAL] ++ sleeps_of (log w)).
    rewrite app_assoc. f_equal.
    now rewrite <- repeat_cons.
Qed.

(** [j] iterations whose evaluation is false, each begun within the
    budget, take the loop from [(i, w)] to [(i + j, misses_from i j w)]. *)
Lemma poll_misses j : forall f i start timeout msg w,
  (forall d, (d < j)%nat ->
     condition (i + d) (now (misses_from i d w)) = Fulfilled false) ->
  (forall d, (d < j)%nat -> now (misses_from i d w) - start < timeout) ->
  poll (j + f) i start timeout msg w
  = poll f (i + j) start timeout msg (misses_from i j w).
Proof.
  induction j as [|j IH]; intros f i start timeout msg w Hfalse Hbudget.
  - simpl. now rewrite Nat.add_0_r.
  - change (S j + f)%nat with (S (j + f)). rewrite poll_S.
    pose proof (Hbudget O ltac:(lia)) as Hb. simpl in Hb.
    apply Z.ltb_lt in Hb. rewrite Hb.
    pose proof (Hfalse O ltac:(lia)) as Hf. simpl in Hf.
    rewrite Nat.add_0_r in Hf. rewrite Hf.
    rewrite IH.
    + cbn [WaitUtil.misses_from]. f_equal. lia.
    + intros d Hd. specialize (Hfalse (S d) ltac:(lia)).
      cbn [WaitUtil.misses_from] in Hfalse.
      now replace (S i + d)%nat with (i + S d)%nat by lia.
    + intros d Hd. apply (Hbudget (S d)). lia.
Qed.

(** A budget that lets the check of index [k] pass leaves fuel for it. *)
Lemma poll_fuel_enough k w0 timeout :
  now (misses_from 0 k w0) - now w0 < timeout ->
  exists f, WaitUtil.poll_fuel timeout = (k + S f)%nat.
Proof.
  intros H. pose proof (now_misses_from 0 k w0) as Hn.
  unfold WaitUtil.poll_fuel.
  assert (Z.of_nat k <= timeout / WaitUtil.POLL_INTERVAL) as Hk.
  { apply Z.div_le_lower_bound; unfold WaitUtil.POLL_INTERVAL in *; lia. }
  set (q := timeout / WaitUtil.POLL_INTERVAL) in *.
  clearbody q. clear H Hn.
  exists (S (Z.to_nat q - k)). lia.
Qed.

(** After [k] false evaluations within the budget the call stands at the
    check of index [k], with fuel left. *)
Lemma waitForCondition_after_misses timeout msg w0 k :
  (forall d, (d < k)%nat ->
     condition d (now (misses_from 0 d w0)) = Fulfilled false) ->
  now (misses_from 0 k w0) - now w0 < timeout ->
  exists f,
    waitForCondition (Some timeout) msg w0
    = poll (S f) k (now w0) timeout (WaitUtil.errorMessage_or_default msg)
        (misses_from 0 k w0).
Proof.
  intros Hfalse Hbudget.
  destruct (poll_fuel_enough k w0 timeout Hbudget) as [f Hf].
  exists f. unfold WaitUtil.waitForCondition, bind, dateNow.
  cbn [WaitUtil.timeout_or_default]. rewrite Hf.
  rewrite poll_misses; [reflexivity | exact Hfalse |].
  intros d Hd.
  pose proof (now_misses_mono 0 d k w0 ltac:(lia)). lia.
Qed.

(** With a condition that is false whenever it is evaluated the loop ends
    at its guard, after some number [j] of iterations. *)
Lemma poll_never_true
  (Hnever : forall i t, condition i t = Fulfilled false) f :
  forall i start timeout msg w,
    timeout - (now w - start) <= WaitUtil.POLL_INTERVAL * Z.of_nat f ->
    exists j,
      poll (S f) i start timeout msg w
      = (Throw (timeout_error msg timeout), misses_from i j w)
      /\ timeout <= now (misses_from i j w) - start.
Proof.
  induction f as [|f IH]; intros i start timeout msg w Hfuel;
    rewrite poll_S; destruct (now w - start <? timeout) eqn:Hc.
  - apply Z.ltb_lt in Hc. lia.
  - apply Z.ltb_ge in Hc. exists O. split; [reflexivity | simpl; lia].
  - rewrite Hnever.
    destruct (IH (S i) start timeout msg (miss i w)) as [j [Hj Ht]].
    + rewrite now_miss. unfold WaitUtil.POLL_INTERVAL in *. lia.
    + exists (S j). split; [exact Hj | exact Ht].
  - apply Z.ltb_ge in Hc. exists O. split; [reflexivity | simpl; lia].
Qed.

Lemma poll_fuel_covers timeout :
  timeout <= WaitUtil.POLL_INTERVAL
             * Z.of_nat (pred (WaitUtil.poll_fuel timeout)).
Proof.
  unfold WaitUtil.poll_fuel, WaitUtil.POLL_INTERVAL.
  replace (pred (Z.to_nat (timeout / 500) + 2)) with
    (S (Z.to_nat (timeout / 500))) by lia.
  destruct (Z.le_gt_cases 0 timeout) as [Hpos|Hneg].
  - pose proof (Z.div_pos timeout 500 Hpos ltac:(lia)).
    pose proof (Z.mul_succ_div_gt timeout 500 ltac:(lia)). lia.
  - lia.
Qed.

(** C2, as the code has it.  With a budget of zero the guard of the loop
    fails at once: waitForCondition throws its timeout error without
    evaluating the condition and without sleeping; the world is left as
    it was. *)
Theorem waitForCondition_zero_budget msg w0 :
  waitForCondition (Some 0) msg w0
  = (Throw (mkError (WaitUtil.errorMessage_or_default msg
                     ++ " within 0ms")%string), w0).
Proof.
  unfold WaitUtil.waitForCondition, bind, dateNow.
  cbn [WaitUtil.timeout_or_default].
  change (WaitUtil.poll_fuel 0) with 2%nat. rewrite poll_S.
  replace (now w0 - now w0 <? 0) with false; [reflexivity|].
  symmetry. apply Z.ltb_ge. lia.
Qed.

(** C3, as the code has it.  When the condition is false at every
    evaluation, waitForCondition throws an [Error] whose message is the
    caller's errorMessage followed by the configured timeout,
    "<errorMessage> within <timeout>ms"; it does so once the elapsed time
    has reached the timeout, after some number [j] of evaluations, each
    followed by a sleep of one poll interval. *)
Theorem waitForCondition_times_out timeout msg w0
  (Hnever : forall i t, condition i t = Fulfilled false) :
  exists j,
    waitForCondition (Some timeout) msg w0
    = (Throw (mkError (WaitUtil.errorMessage_or_default msg ++ " within "
                       ++ number_toString timeout ++ "ms")%string),
       misses_from 0 j w0)
    /\ timeout <= now (misses_from 0 j w0) - now w0
    /\ count_evals (log (misses_from 0 j w0))
       = (count_evals (log w0) + j)%nat
    /\ sleeps_of (log (misses_from 0 j w0))
       = repeat WaitUtil.POLL_INTERVAL j ++ sleeps_of (log w0).
Proof.
  unfold WaitUtil.waitForCondition, bind, dateNow.
  cbn [WaitUtil.timeout_or_default].
  pose proof (poll_fuel_covers timeout) as Hcov.
  assert (exists f, WaitUtil.poll_fuel timeout = S f) as [f Hf].
  { unfold WaitUtil.poll_fuel.
    set (q := timeout / WaitUtil.POLL_INTERVAL). clearbody q.
    exists (S (Z.to_nat q)). lia. }
  rewrite Hf in *. cbn [pred] in Hcov.
  destruct (poll_never_true Hnever f O (now w0) timeout
              (WaitUtil.errorMessage_or_default msg) w0) as [j [Hj Ht]].
  { lia. }
  exists j. rewrite Hj. repeat split.
  - exact Ht.
  - apply log_misses_evals.
  - apply log_misses_sleeps.
Qed.


(** C7.  When the condition is false at the first [j] evaluations and the
    next one, begun within the budget, throws [e], waitForCondition
    throws that same [e] right there: the evaluation that threw is the
    last thing done, no sleep follows it, and this holds whatever the
    timeout is, as long as it lets that evaluation begin. *)
Theorem waitForCondition_propagates timeout msg w0 j e
  (Hfalse : forall d, (d < j)%nat ->
     condition d (now (misses_from 0 d w0)) = Fulfilled false)
  (Hthrow : condition j (now (misses_from 0 j w0)) = Rejected e)
  (Hbudget : now (misses_from 0 j w0) - now w0 < timeout) :
  let r := waitForCondition (Some timeout) msg w0 in
  fst r = Throw e
  /\ count_evals (log (snd r)) = (count_evals (log w0) + S j)%nat
  /\ sleeps_of (log (snd r))
     = repeat WaitUtil.POLL_INTERVAL j ++ sleeps_of (log w0)
  /\ hd_error (log (snd r)) = Some (EvCondition j).
Proof.
  destruct (waitForCondition_after_misses timeout msg w0 j Hfalse Hbudget)
    as [f Hf].
  cbv zeta. rewrite Hf, poll_S.
  apply Z.ltb_lt in Hbudget. rewrite Hbudget, Hthrow. cbn [fst snd].
  rewrite log_tick. cbn [count_evals sleeps_of hd_error].
  rewrite log_misses_evals, log_misses_sleeps.
  repeat split; lia.
Qed.

(** The fuel is never what ends a wait: whatever the condition does,
    waitForCondition returns or throws. *)
Lemma poll_total f : forall i start timeout msg w,
  timeout - (now w - start) <= WaitUtil.POLL_INTERVAL * Z.of_nat f ->
  fst (poll (S f) i start timeout msg w) <> OutOfFuel.
Proof.
  induction f as [|f IH]; intros i start timeout msg w Hfuel;
    rewrite poll_S; destruct (now w - start <? timeout) eqn:Hc;
    try discriminate.
  - apply Z.ltb_lt in Hc. lia.
  - destruct (condition i (now w)) as [[|]|e]; try discriminate.
    apply IH. apply Z.ltb_lt in Hc. rewrite now_miss.
    unfold WaitUtil.POLL_INTERVAL in *. lia.
Qed.

Lemma waitForCondition_total timeout msg w :
  fst (waitForCondition timeout msg w) <> OutOfFuel.
Proof.
  unfold WaitUtil.waitForCondition, bind, dateNow.
  pose proof (poll_fuel_covers (WaitUtil.timeout_or_default timeout)) as Hcov.
  assert (exists f, WaitUtil.poll_fuel (WaitUtil.timeout_or_default timeout)
                    = S f) as [f Hf].
  { unfold WaitUtil.poll_fuel.
    set (q := WaitUtil.timeout_or_default timeout / WaitUtil.POLL_INTERVAL).
    clearbody q. exists (S (Z.to_nat q)). lia. }
  rewrite Hf in *. cbn [pred] in Hcov.
  apply poll_total. lia.
Qed.

End PollerFacts.

(** ** The poller on concrete runs *)


Lemma waitForCondition_propagates_witness :
  let r := WaitUtil.waitForCondition Scenario.punctual
             (Scenario.throws_at 2) Scenario.instant
             (Some 5000) None Scenario.w_init in
  fst r = Throw Scenario.boom
  /\ count_evals (log (snd r)) = 3%nat
  /\ sleeps_of (log (snd r)) = [500; 500]
  /\ hd_error (log (snd r)) = Some (EvCondition 2).
Proof.
  apply (waitForCondition_propagates Scenario.punctual
           (Scenario.throws_at 2) Scenario.instant
           5000 None Scenario.w_init 2 Scenario.boom).
  - intros d Hd. destruct d as [|[|d]];
      [reflexivity | reflexivity | exfalso; lia].
  - reflexivity.
  - vm_compute. reflexivity.
Defined.

Lemma waitForCondition_times_out_witness :
  exists j,
    WaitUtil.waitForCondition Scenario.punctual (Scenario.always false)
      Scenario.instant (Some 1000) None Scenario.w_init
    = (Throw (mkError "Condition not met within 1000ms"),
       WaitUtil.misses_from Scenario.punctual (Scenario.always false)
         Scenario.instant 0 j Scenario.w_init)
    /\ 1000 <= now (WaitUtil.misses_from Scenario.punctual
                      (Scenario.always false) Scenario.instant 0 j
                      Scenario.w_init) - 0
    /\ count_evals (log (WaitUtil.misses_from Scenario.punctual
                           (Scenario.always false) Scenario.instant 0 j
                           Scenario.w_init)) = (0 + j)%nat
    /\ sleeps_of (log (WaitUtil.misses_from Scenario.punctual
                         (Scenario.always false) Scenario.instant 0 j
                         Scenario.w_init))
       = repeat 500 j ++ [].
Proof.
  apply (waitForCondition_times_out Scenario.punctual
           (Scenario.always false) Scenario.instant
           1000 None Scenario.w_init).
  intros i t. reflexivity.
Defined.

(** C2 as stated fails: with a budget of zero the condition is not
    evaluated once, it is not evaluated at all. *)
Lemma waitForCondition_zero_budget_counterexample :
  count_evals
    (log (snd (WaitUtil.waitForCondition Scenario.punctual
                 (Scenario.always false) Scenario.instant
                 (Some 0) None Scenario.w_init)))
  <> 1%nat.
Proof. vm_compute. discriminate. Qed.

(** The same call with a condition that is true: it is not looked at
    either, and the call throws. *)
Example waitForCondition_zero_budget_true :
  WaitUtil.waitForCondition Scenario.punctual (Scenario.always true)
    Scenario.instant (Some 0) None Scenario.w_init
  = (Throw (mkError "Condition not met within 0ms"), Scenario.w_init).
Proof. reflexivity. Qed.

(** A condition that turns true at 1100 ms, within a budget of 1200 ms,
    is not seen to: the evaluations are at 0, 500 and 1000 ms, and at
    1500 ms the budget is spent. *)
Example waitForCondition_late_true :
  let r := WaitUtil.waitForCondition Scenario.punctual
             (Scenario.true_from 1100) Scenario.instant
             (Some 1200) None Scenario.w_init in
  fst r = Throw (mkError "Condition not met within 1200ms")
  /\ count_evals (log (snd r)) = 3%nat
  /\ now (snd r) = 1500.
Proof. vm_compute. repeat split; reflexivity. Qed.

(** C3 as stated fails: the elapsed time cannot be read off the error.
    Two waits of budget 1000 ms on a condition that is never true, one
    with evaluations that take no time and one with evaluations of 100 ms,
    end after 1000 ms and after 1200 ms with the same error. *)
Lemma waitForCondition_error_counterexample :
  ~ exists elapsedMs : Error -> Z,
      forall timer_lag condition condition_cost timeout msg w0 e w',
        (forall i t, condition i t = Fulfilled false) ->
        WaitUtil.waitForCondition timer_lag condition condition_cost
          timeout msg w0 = (Throw e, w') ->
        elapsedMs e = now w' - now w0.
Proof.
  intros [elapsedMs H].
  pose proof (H Scenario.punctual (Scenario.always false) Scenario.instant
                (Some 1000) None Scenario.w_init) as H1.
  pose proof (H Scenario.punctual (Scenario.always false) Scenario.slow
                (Some 1000) None Scenario.w_init) as H2.
  vm_compute in H1, H2.
  specialize (H1 _ _ (fun _ _ => eq_refl) eq_refl).
  specialize (H2 _ _ (fun _ _ => eq_refl) eq_refl).
  rewrite H1 in H2. discriminate H2.
Qed.

(** * Properties of the retry executor *)

Section RetryFacts.

Variable timer_lag : nat -> nat.
Variable T : Type.
Variable action : Z -> settled T.
Variable action_cost : Z -> nat.

Local Abbreviation await_action :=
  (WaitUtil.await_action T action action_cost).
Local Abbreviation retry_loop :=
  (WaitUtil.retry_loop timer_lag T action action_cost).
Local Abbreviation retryUntilSuccess :=
  (WaitUtil.retryUntilSuccess timer_lag T action action_cost).
Local Abbreviation failed_attempt :=
  (WaitUtil.failed_attempt timer_lag T action action_cost).
Local Abbreviation failures_from :=
  (WaitUtil.failures_from timer_lag T action action_cost).
Local Abbreviation exhausted n lastError :=
  (mkError ("Action failed after " ++ number_toString n
            ++ " attempts. Last error: "
            ++ WaitUtil.lastError_message lastError)%string).

Lemma log_await_action a w :
  log (snd (await_action a w)) = EvAction a :: log w.
Proof.
  unfold WaitUtil.await_action. destruct (action a); reflexivity.
Qed.

Lemma log_failed_attempt n d a w :
  log (failed_attempt n d a w)
  = if a <? n then EvSleep d :: EvAction a :: log w
    else EvAction a :: log w.
Proof.
  unfold WaitUtil.failed_attempt.
  destruct (a <? n); cbn [WaitUtil.sleep snd log];
    now rewrite log_await_action.
Qed.

(** One turn of the for loop. *)
Lemma retry_S f a lastError n d w :
  retry_loop (S f) a lastError n d w =
  if a <=? n then
    match action a with
    | Fulfilled v => (Return v, snd (await_action a w))
    | Rejected e => retry_loop f (a + 1) (Some e) n d (failed_attempt n d a w)
    end
  else (Throw (exhausted n lastError), w).
Proof.
  cbn [WaitUtil.retry_loop].
  destruct (a <=? n); [|reflexivity].
  unfold try_catch, bind, ret, WaitUtil.failed_attempt,
    WaitUtil.await_action.
  destruct (action a) as [v|e]; [reflexivity|].
  cbn [snd]. destruct (a <? n); reflexivity.
Qed.

Lemma failures_from_last n d a j w :
  failures_from n d a (S j) w
  = failed_attempt n d (a + Z.of_nat j) (failures_from n d a j w).
Proof.
  revert a w; induction j as [|j IH]; intros a w.
  - cbn [WaitUtil.failures_from]. now rewrite Z.add_0_r.
  - change (failures_from n d a (S (S j)) w)
      with (failures_from n d (a + 1) (S j) (failed_attempt n d a w)).
    rewrite IH. cbn [WaitUtil.failures_from]. f_equal. lia.
Qed.

Lemma count_failures n d a j w :
  count_actions (log (failures_from n d a j w))
  = (count_actions (log w) + j)%nat.
Proof.
  revert a w; induction j as [|j IH]; intros a w.
  - simpl. lia.
  - cbn [WaitUtil.failures_from]. rewrite IH, log_failed_attempt.
    destruct (a <? n); simpl; lia.
Qed.

(** Failed attempts before the last one are each followed by the delay. *)
Lemma sleeps_failures n d a j w :
  a + Z.of_nat j <= n ->
  sleeps_of (log (failures_from n d a j w))
  = repeat d j ++ sleeps_of (log w).
Proof.
  revert a w; induction j as [|j IH]; intros a w Hn.
  - reflexivity.
  - cbn [WaitUtil.failures_from]. rewrite IH by lia.
    rewrite log_failed_attempt.
    replace (a <? n) with true by (symmetry; apply Z.ltb_lt; lia).
    cbn [sleeps_of].
    change (d :: sleeps_of (log w)) with ([d] ++ sleeps_of (log w)).
    rewrite app_assoc. f_equal. now rewrite <- repeat_cons.
Qed.

(** [j] failed attempts in a row, none beyond [n], take the loop from
    attempt [a] to attempt [a + j]; the error kept is the latest one. *)
Lemma retry_failures (errs : Z -> Error) n d j : forall f a lastError w,
  (forall i, (i < j)%nat ->
     action (a + Z.of_nat i) = Rejected (errs (a + Z.of_nat i))) ->
  a + Z.of_nat j - 1 <= n ->
  retry_loop (j + f) a lastError n d w
  = retry_loop f (a + Z.of_nat j)
      (match j with
       | O => lastError
       | S j' => Some (errs (a + Z.of_nat j'))
       end) n d (failures_from n d a j w).
Proof.
  induction j as [|j IH]; intros f a lastError w Hfail Hn.
  - cbn [WaitUtil.failures_from Nat.add]. now rewrite Z.add_0_r.
  - change (S j + f)%nat with (S (j + f)). rewrite retry_S.
    replace (a <=? n) with true by (symmetry; apply Z.leb_le; lia).
    pose proof (Hfail O ltac:(lia)) as H0.
    rewrite Z.add_0_r in H0. rewrite H0.
    rewrite IH.
    + cbn [WaitUtil.failures_from].
      replace (a + 1 + Z.of_nat j) with (a + Z.of_nat (S j)) by lia.
      destruct j as [|j']; [now rewrite Z.add_0_r|].
      now replace (a + 1 + Z.of_nat j') with (a + Z.of_nat (S j')) by lia.
    + intros i Hi. specialize (Hfail (S i) ltac:(lia)).
      now replace (a + 1 + Z.of_nat i) with (a + Z.of_nat (S i)) by lia.
    + lia.
Qed.

(** Where the loop stands after the attempts before [k] have failed. *)
Lemma retryUntilSuccess_reaches n d w0 k
  (Hk : 1 <= k <= n)
  (Hfail : forall a, 1 <= a < k -> exists e, action a = Rejected e) :
  exists f lastError,
    retryUntilSuccess (Some n) (Some d) w0
    = retry_loop (S (S f)) k lastError n d
        (failures_from n d 1 (Z.to_nat (k - 1)) w0).
Proof.
  set (errs := fun a => match action a with
                        | Rejected e => e
                        | Fulfilled _ => mkError EmptyString
                        end).
  set (j := Z.to_nat (k - 1)).
  exists (Z.to_nat n - j - 1)%nat.
  exists (match j with O => None | S j' => Some (errs (1 + Z.of_nat j')) end).
  unfold WaitUtil.retryUntilSuccess, WaitUtil.retry_fuel.
  replace (S (Z.to_nat n)) with (j + S (S (Z.to_nat n - j - 1)))%nat
    by (unfold j; lia).
  rewrite (retry_failures errs).
  - now replace (1 + Z.of_nat j) with k by (unfold j; lia).
  - intros i Hi.
    destruct (Hfail (1 + Z.of_nat i) ltac:(unfold j in Hi; lia)) as [e He].
    unfold errs. now rewrite He.
  - unfold j. lia.
Qed.

(** The whole run, [k] being the attempt at which the loop stops. *)
Lemma retry_run n d w0 k
  (Hk : 1 <= k <= n)
  (Hfail : forall a, 1 <= a < k -> exists e, action a = Rejected e)
  (Hstop : (exists v, action k = Fulfilled v) \/ k = n) :
  let r := retryUntilSuccess (Some n) (Some d) w0 in
  fst r = match action k with
          | Fulfilled v => Return v
          | Rejected e => Throw (exhausted n (Some e))
          end
  /\ count_actions (log (snd r))
     = (count_actions (log w0) + Z.to_nat k)%nat
  /\ sleeps_of (log (snd r))
     = repeat d (Z.to_nat (k - 1)) ++ sleeps_of (log w0)
  /\ hd_error (log (snd r)) = Some (EvAction k)
  /\ (n = 1 -> sleeps_of (log (snd r)) = sleeps_of (log w0)).
Proof.
  destruct (retryUntilSuccess_reaches n d w0 k Hk Hfail) as [f [last Hr]].
  assert (Hsl : sleeps_of (log (failures_from n d 1 (Z.to_nat (k - 1)) w0))
                = repeat d (Z.to_nat (k - 1)) ++ sleeps_of (log w0))
    by (apply sleeps_failures; lia).
  assert (Hone : n = 1 -> Z.to_nat (k - 1) = O) by lia.
  cbv zeta. rewrite Hr, retry_S.
  replace (k <=? n) with true by (symmetry; apply Z.leb_le; lia).
  destruct (action k) as [v|e] eqn:Hak.
  - cbn [fst snd]. rewrite log_await_action.
    cbn [count_actions sleeps_of hd_error].
    rewrite count_failures, Hsl.
    repeat split; try lia.
    intros H1. now rewrite (Hone H1).
  - destruct Hstop as [[v Hv]|Hkn]; [discriminate Hv|]. subst k.
    rewrite retry_S.
    replace (n + 1 <=? n) with false by (symmetry; apply Z.leb_gt; lia).
    cbn [fst snd]. rewrite log_failed_attempt, Z.ltb_irrefl.
    cbn [count_actions sleeps_of hd_error].
    rewrite count_failures, Hsl.
    repeat split; try lia.
    intros H1. now rewrite (Hone H1).
Qed.

(** C5.  Let [k] be the attempt at which the action first succeeds, or
    [n] when it fails at every attempt.  retryUntilSuccess with
    maxAttempts n >= 1 calls the action exactly [k] times and sleeps
    delayMs exactly [k - 1] times; the last thing it does is the k-th
    call, never a sleep; it returns the result of that call when it
    succeeded, and throws otherwise.  With n = 1 it never sleeps. *)
Theorem retryUntilSuccess_attempts n d w0 k
  (Hk : 1 <= k <= n)
  (Hfail : forall a, 1 <= a < k -> exists e, action a = Rejected e)
  (Hstop : (exists v, action k = Fulfilled v) \/ k = n) :
  let r := retryUntilSuccess (Some n) (Some d) w0 in
  fst r = match action k with
          | Fulfilled v => Return v
          | Rejected e => Throw (exhausted n (Some e))
          end
  /\ count_actions (log (snd r))
     = (count_actions (log w0) + Z.to_nat k)%nat
  /\ sleeps_of (log (snd r))
     = repeat d (Z.to_nat (k - 1)) ++ sleeps_of (log w0)
  /\ hd_error (log (snd r)) = Some (EvAction k)
  /\ (n = 1 -> sleeps_of (log (snd r)) = sleeps_of (log w0)).
Proof. exact (retry_run n d w0 k Hk Hfail Hstop). Qed.


(** C9.  With maxAttempts n <= 0 the body of the loop never runs: the
    action is not called, nothing sleeps, and the Error thrown reports
    [n] attempts and the last error "undefined". *)
Theorem retryUntilSuccess_no_attempts n d w0 (Hn : n <= 0) :
  retryUntilSuccess (Some n) d w0
  = (Throw (mkError ("Action failed after " ++ number_toString n
                     ++ " attempts. Last error: undefined")%string), w0).
Proof.
  unfold WaitUtil.retryUntilSuccess, WaitUtil.retry_fuel.
  replace (Z.to_nat n) with O by lia.
  rewrite retry_S.
  replace (1 <=? n) with false by (symmetry; apply Z.leb_gt; lia).
  reflexivity.
Qed.

(** The fuel is never what ends a retry either. *)
Lemma retry_total f : forall a lastError n d w,
  n - a < Z.of_nat f ->
  fst (retry_loop (S f) a lastError n d w) <> OutOfFuel.
Proof.
  induction f as [|f IH]; intros a lastError n d w Hfuel;
    rewrite retry_S; destruct (a <=? n) eqn:Hc; try discriminate.
  - apply Z.leb_le in Hc. lia.
  - destruct (action a) as [v|e]; try discriminate.
    apply IH. lia.
Qed.

Lemma retryUntilSuccess_total maxAttempts delayMs w :
  fst (retryUntilSuccess maxAttempts delayMs w) <> OutOfFuel.
Proof.
  unfold WaitUtil.retryUntilSuccess, WaitUtil.retry_fuel.
  apply retry_total. lia.
Qed.

End RetryFacts.


(** ** The retry executor on concrete runs *)

(** An action that fails twice and then succeeds, retried up to 3 times
    with a delay of 50 ms. *)
Lemma retryUntilSuccess_attempts_witness :
  let r := WaitUtil.retryUntilSuccess Scenario.punctual nat
             Scenario.fails_twice Scenario.instant_call
             (Some 3) (Some 50) Scenario.w_init in
  fst r = Return 42%nat
  /\ count_actions (log (snd r)) = 3%nat
  /\ sleeps_of (log (snd r)) = [50; 50]
  /\ hd_error (log (snd r)) = Some (EvAction 3)
  /\ (3 = 1 -> sleeps_of (log (snd r)) = []).
Proof.
  apply (retryUntilSuccess_attempts Scenario.punctual nat
           Scenario.fails_twice Scenario.instant_call
           3 50 Scenario.w_init 3).
  - lia.
  - intros a Ha. exists (Scenario.failure a). unfold Scenario.fails_twice.
    replace (a <? 3) with true by (symmetry; apply Z.ltb_lt; lia).
    reflexivity.
  - left. exists 42%nat. reflexivity.
Defined.

(** An action that fails at each of its 3 attempts: 3 calls, 2 sleeps,
    none after the last call, and the error of attempt 3 in the message. *)
Example retryUntilSuccess_all_fail :
  let r := WaitUtil.retryUntilSuccess Scenario.punctual nat
             Scenario.always_fails Scenario.instant_call
             (Some 3) (Some 50) Scenario.w_init in
  fst r = Throw (mkError
                   "Action failed after 3 attempts. Last error: attempt 3")
  /\ log (snd r)
     = [EvAction 3; EvSleep 50; EvAction 2; EvSleep 50; EvAction 1].
Proof. vm_compute. split; reflexivity. Qed.


Lemma retryUntilSuccess_no_attempts_witness :
  WaitUtil.retryUntilSuccess Scenario.punctual nat
    Scenario.fails_twice Scenario.instant_call
    (Some 0) None Scenario.w_init
  = (Throw (mkError
              "Action failed after 0 attempts. Last error: undefined"),
     Scenario.w_init).
Proof.
  apply (retryUntilSuccess_no_attempts Scenario.punctual nat
           Scenario.fails_twice Scenario.instant_call
           0 None Scenario.w_init).
  lia.
Defined.

(** * Properties of the console-message waiter *)

Section ConsoleFacts.

Import WaitUtil.

Lemma existsb_eqb_In x l : existsb (Nat.eqb x) l = true <-> In x l.
Proof.
  rewrite existsb_exists. split.
  - intros [y [Hy He]]. apply Nat.eqb_eq in He. now subst.
  - intros H. exists x. split; [exact H | apply Nat.eqb_refl].
Qed.

Lemma fresh_notin l : ~ In (fresh l) l.
Proof.
  intros H. unfold fresh in H.
  assert (Forall (fun k => (k <= list_max l)%nat) l) as Hall
    by (apply list_max_le; apply le_n).
  rewrite Forall_forall in Hall. specialize (Hall _ H). lia.
Qed.

Lemma remove_nat_notin x l : ~ In x (remove_nat x l).
Proof.
  induction l as [|y l IH]; simpl; [tauto|].
  destruct (Nat.eqb x y) eqn:E; [exact IH|].
  apply Nat.eqb_neq in E. simpl. intros [H|H]; [congruence | tauto].
Qed.

Lemma remove_nat_subset x y l : In x (remove_nat y l) -> In x l.
Proof.
  induction l as [|z l IH]; simpl; [tauto|].
  destruct (Nat.eqb y z); simpl; tauto.
Qed.

Lemma remove_nat_other x y l : x <> y -> In x l -> In x (remove_nat y l).
Proof.
  intros Hxy. induction l as [|z l IH]; simpl; [tauto|].
  destruct (Nat.eqb y z) eqn:E.
  - apply Nat.eqb_eq in E. subst z. intros [H|H]; [congruence | tauto].
  - simpl. tauto.
Qed.

(** page.off undoes the page.on that came last. *)
Lemma page_off_on h p :
  console_listeners (page_off h (page_on h p)) = console_listeners p.
Proof.
  unfold page_off, page_on; cbn [console_listeners].
  rewrite rev_app_distr. cbn [rev app remove_first].
  rewrite Nat.eqb_refl. apply rev_involutive.
Qed.

Variable c : console_call.
Variable p0 : page.
Hypothesis handler_fresh : ~ In (call_handler c) (console_listeners p0).

(** An event that does not settle the call leaves it pending, with its
    handler and its timer in place. *)
Lemma deliver_registered ev st :
  registered c p0 st -> settles c ev = false ->
  registered c p0 (deliver c ev st).
Proof.
  intros [Hp [Hl Ht]] Hs. destruct ev as [text|id]; cbn [settles] in Hs.
  - cbn [deliver]. unfold handler. rewrite Hs.
    destruct (existsb _ _); repeat split; assumption.
  - cbn [deliver]. rewrite Hs.
    destruct (existsb (Nat.eqb id) (pending_timers (the_page st)));
      [|repeat split; assumption].
    repeat split; cbn [on_page promise the_page clearTimeout
                         console_listeners pending_timers];
      try assumption.
    apply remove_nat_other; [|exact Ht].
    apply Nat.eqb_neq in Hs. congruence.
Qed.

(** An event that settles the call removes the handler and the timer. *)
Lemma deliver_settles ev st :
  registered c p0 st -> settles c ev = true ->
  cleaned c p0 (deliver c ev st)
  /\ promise (deliver c ev st) = settled_by c ev.
Proof.
  intros [Hp [Hl Ht]] Hs. destruct ev as [text|id]; cbn [settles] in Hs.
  - cbn [deliver settled_by].
    replace (existsb (Nat.eqb (call_handler c))
               (console_listeners (the_page st))) with true.
    2:{ symmetry. apply existsb_eqb_In. rewrite Hl.
        apply in_or_app. right. now left. }
    unfold handler, settle. rewrite Hs.
    cbn [on_page promise the_page]. rewrite Hp. unfold cleaned.
    cbn [promise the_page page_off clearTimeout console_listeners
           pending_timers].
    split; [split; [discriminate | split] | reflexivity].
    + rewrite Hl, rev_app_distr. cbn [rev app remove_first].
      rewrite Nat.eqb_refl. apply rev_involutive.
    + apply remove_nat_notin.
  - apply Nat.eqb_eq in Hs. subst id. cbn [deliver settled_by].
    replace (existsb (Nat.eqb (call_timer c))
               (pending_timers (the_page st))) with true
      by (symmetry; now apply existsb_eqb_In).
    rewrite Nat.eqb_refl. unfold timer_callback, settle.
    cbn [on_page promise the_page]. rewrite Hp. unfold cleaned.
    cbn [promise the_page page_off clearTimeout console_listeners
           pending_timers].
    split; [split; [discriminate | split] | reflexivity].
    + rewrite Hl, rev_app_distr. cbn [rev app remove_first].
      rewrite Nat.eqb_refl. apply rev_involutive.
    + apply remove_nat_notin.
Qed.

(** Once the call is over no event brings its handler or its timer back,
    and the promise stays as it was settled. *)
Lemma deliver_cleaned ev st :
  cleaned c p0 st ->
  cleaned c p0 (deliver c ev st) /\ promise (deliver c ev st) = promise st.
Proof.
  intros [Hp [Hl Ht]]. destruct ev as [text|id]; cbn [deliver].
  - replace (existsb (Nat.eqb (call_handler c))
               (console_listeners (the_page st))) with false.
    + repeat split; assumption.
    + symmetry. apply not_true_is_false. rewrite existsb_eqb_In, Hl.
      exact handler_fresh.
  - destruct (existsb (Nat.eqb id) (pending_timers (the_page st))) eqn:E;
      [|repeat split; assumption].
    apply existsb_eqb_In in E.
    destruct (Nat.eqb id (call_timer c)) eqn:Eid.
    + apply Nat.eqb_eq in Eid. subst id. contradiction.
    + repeat split; cbn [on_page promise the_page clearTimeout
                           console_listeners pending_timers];
        try assumption.
      intros H. apply Ht. eapply remove_nat_subset. exact H.
Qed.

Lemma deliver_all_cleaned evs : forall st,
  cleaned c p0 st ->
  cleaned c p0 (deliver_all c evs st)
  /\ promise (deliver_all c evs st) = promise st.
Proof.
  induction evs as [|ev evs IH]; intros st Hc.
  - split; [exact Hc | reflexivity].
  - cbn [deliver_all fold_left].
    destruct (deliver_cleaned ev st Hc) as [Hc' Hp'].
    destruct (IH _ Hc') as [Hc'' Hp'']. split; [exact Hc''|].
    unfold deliver_all in Hp''. congruence.
Qed.

(** The first event that settles the call decides its outcome. *)
Lemma deliver_all_registered evs : forall st,
  registered c p0 st ->
  match find (settles c) evs with
  | None => registered c p0 (deliver_all c evs st)
  | Some ev =>
      cleaned c p0 (deliver_all c evs st)
      /\ promise (deliver_all c evs st) = settled_by c ev
  end.
Proof.
  induction evs as [|ev evs IH]; intros st Hr.
  - exact Hr.
  - cbn [find deliver_all fold_left].
    destruct (settles c ev) eqn:Hs.
    + destruct (deliver_settles ev st Hr Hs) as [Hc Hp].
      destruct (deliver_all_cleaned evs _ Hc) as [Hc' Hp'].
      split; [exact Hc'|]. unfold deliver_all in Hp'. congruence.
    + apply IH. now apply deliver_registered.
Qed.

End ConsoleFacts.

(** C8.  After a call of waitForConsoleMessage and any events, the first
    event that can end the call, a console message that matches or the
    call's own timer, decides: if there was none yet the promise is
    pending, the handler subscribed and the timer set; if it was a
    message the promise is resolved, if it was the timer it is rejected;
    and in both cases the listeners of the page are those from before the
    call, the handler is not among them and the timer is no longer set. *)
Theorem waitForConsoleMessage_cleans_up expectedMessage timeout p0 evs :
  let c := fst (WaitUtil.waitForConsoleMessage expectedMessage timeout p0) in
  let st :=
    WaitUtil.deliver_all c evs
      (snd (WaitUtil.waitForConsoleMessage expectedMessage timeout p0)) in
  let page := WaitUtil.the_page st in
  match find (WaitUtil.settles c) evs with
  | None =>
      WaitUtil.promise st = WaitUtil.Pending
      /\ In (WaitUtil.call_handler c) (WaitUtil.console_listeners page)
      /\ In (WaitUtil.call_timer c) (WaitUtil.pending_timers page)
  | Some ev =>
      WaitUtil.promise st
      = match ev with
        | WaitUtil.ConsoleMessage _ => WaitUtil.Resolved
        | WaitUtil.TimerDue _ =>
            WaitUtil.RejectedWith (WaitUtil.not_found c)
        end
      /\ WaitUtil.console_listeners page = WaitUtil.console_listeners p0
      /\ ~ In (WaitUtil.call_handler c) (WaitUtil.console_listeners page)
      /\ ~ In (WaitUtil.call_timer c) (WaitUtil.pending_timers page)
  end.
Proof.
  cbv zeta.
  set (c := fst (WaitUtil.waitForConsoleMessage expectedMessage timeout p0)).
  set (st0 := snd (WaitUtil.waitForConsoleMessage expectedMessage timeout p0)).
  assert (Hfresh : ~ In (WaitUtil.call_handler c)
                     (WaitUtil.console_listeners p0))
    by apply fresh_notin.
  assert (Hreg : WaitUtil.registered c p0 st0).
  { split; [reflexivity | split; [reflexivity | now left]]. }
  pose proof (deliver_all_registered c p0 Hfresh evs st0 Hreg) as H.
  destruct (find (WaitUtil.settles c) evs) as [ev|].
  - destruct H as [[Hp [Hl Ht]] Hs].
    split; [exact Hs | split; [exact Hl | split; [|exact Ht]]].
    rewrite Hl. exact Hfresh.
  - destruct H as [Hp [Hl Ht]].
    split; [exact Hp | split; [|exact Ht]].
    rewrite Hl. apply in_or_app. right. now left.
Qed.

(** ** The console waiter on concrete runs *)

(** A message that matches comes before the deadline: the promise is
    resolved, and the timer that becomes due later finds nothing to do. *)
Example waitForConsoleMessage_match_first :
  let p0 := {| WaitUtil.console_listeners := [4%nat; 7%nat];
               WaitUtil.pending_timers := [2%nat] |} in
  let r := WaitUtil.waitForConsoleMessage (WaitUtil.ExpString "ready")
             (Some 1000) p0 in
  WaitUtil.deliver_all (fst r)
    [WaitUtil.ConsoleMessage "loading";
     WaitUtil.ConsoleMessage "app ready now";
     WaitUtil.TimerDue (WaitUtil.call_timer (fst r))]
    (snd r)
  = {| WaitUtil.the_page := p0; WaitUtil.promise := WaitUtil.Resolved |}.
Proof. reflexivity. Qed.

(** The deadline comes first: the promise is rejected, and the message
    that matches arrives too late to be heard. *)
Example waitForConsoleMessage_timeout_first :
  let p0 := {| WaitUtil.console_listeners := [4%nat; 7%nat];
               WaitUtil.pending_timers := [2%nat] |} in
  let r := WaitUtil.waitForConsoleMessage (WaitUtil.ExpString "ready")
             (Some 1000) p0 in
  WaitUtil.deliver_all (fst r)
    [WaitUtil.ConsoleMessage "loading";
     WaitUtil.TimerDue (WaitUtil.call_timer (fst r));
     WaitUtil.ConsoleMessage "app ready now"]
    (snd r)
  = {| WaitUtil.the_page := p0;
       WaitUtil.promise :=
         WaitUtil.RejectedWith
           (mkError ("Console message " ++ WaitUtil.dquote ++ "ready"
                     ++ WaitUtil.dquote
                     ++ " not found within 1000ms")%string) |}.
Proof. reflexivity. Qed.

(** * Properties of the authenticatedPage fixture *)

Section FixtureFacts.

Import AuthFixture.

Variable driver_fails : nat -> option Error.
Variable env : string -> option string.

Local Abbreviation authenticatedPage_setup :=
  (AuthFixture.authenticatedPage_setup driver_fails env).
Local Abbreviation authenticatedPage :=
  (AuthFixture.authenticatedPage driver_fails env).

(** What the browser has been asked when the fixture is Ready. *)
Lemma setup_ready b0 context page b1 :
  authenticatedPage_setup b0 = (Return (context, page), b1) ->
  context = contexts_made b0
  /\ page = pages_made b0
  /\ calls b1
     = [WaitForURL page 10000;
        WaitForLoadState page "networkidle";
        LocatorClick page LoginButton;
        LocatorFill page PasswordInput
          (or_default (env "TEST_PASSWORD") "testpass123");
        LocatorFill page UsernameInput
          (or_default (env "TEST_USERNAME") "testuser");
        WaitForLoadState page "networkidle";
        WaitForLoadState page "domcontentloaded";
        PageGoto page "/login";
        NewPage context page;
        NewContext context] ++ calls b0.
Proof.
  unfold AuthFixture.authenticatedPage_setup, login, goto, waitForPageLoad,
    BasePage_goto, fillUsername, fillPassword, clickLogin, newContext,
    newPage, new_LoginPage, bind, ret, perform.
  cbn [lp_page url calls contexts_made pages_made].
  repeat match goal with
         | |- context [driver_fails ?n] =>
             destruct (driver_fails n); [discriminate|]
         end.
  cbn [lp_page url calls contexts_made pages_made].
  intros H. injection H as Hc Hp Hb. subst. cbn [calls].
  repeat split.
Qed.

(** C1.  When the setup of the fixture has reached Ready, with context
    [context] and page [page], and the runner has run the test body to
    its verdict, passed or failed with the error it threw, the fixture
    goes on to close [context]: the close is the last thing it asks of
    the browser, it comes right behind the test body, and it is the only
    close of that context the run of the fixture adds. *)
Theorem authenticatedPage_closes_context b0 verdict context page b1
  (Hready : authenticatedPage_setup b0 = (Return (context, page), b1)) :
  let r := authenticatedPage (runner_use verdict) b0 in
  calls (snd r)
  = ContextClose context :: TestBody page verdict :: calls b1
  /\ In (NewContext context) (calls b1)
  /\ count_closes context (calls (snd r))
     = S (count_closes context (calls b0)).
Proof.
  destruct (setup_ready b0 context page b1 Hready) as [Hc [Hp Hcalls]].
  cbv zeta.
  unfold AuthFixture.authenticatedPage, bind. rewrite Hready.
  cbn [fst snd runner_use]. unfold context_close, perform.
  cbn [calls].
  destruct (driver_fails _); cbn [snd calls];
    (split; [reflexivity|]);
    (split; [rewrite Hcalls; apply in_or_app; left;
             do 9 right; now left|]);
    rewrite Hcalls; unfold count_closes;
    cbn [filter app is_close List.length]; rewrite Nat.eqb_refl;
    reflexivity.
Qed.

(** The fixture has no try/finally of its own: were [use] to reject, the
    close would be skipped.  That the context is closed on the fail path
    rests on the runner, whose [use] does not reject. *)
Remark authenticatedPage_needs_runner b0 context page b1 err
  (use : nat -> M browser unit) b2 :
  authenticatedPage_setup b0 = (Return (context, page), b1) ->
  use page b1 = (Throw err, b2) ->
  authenticatedPage use b0 = (Throw err, b2).
Proof.
  intros Hready Huse.
  unfold AuthFixture.authenticatedPage, bind. rewrite Hready.
  cbn [fst snd]. now rewrite Huse.
Qed.

End FixtureFacts.

(** ** The fixture on a concrete run *)

(** A browser that does all it is asked and a test body that throws: the
    context the fixture made is closed all the same. *)
Lemma authenticatedPage_closes_context_witness :
  let r := AuthFixture.authenticatedPage Scenario.driver_ok Scenario.no_env
             (AuthFixture.runner_use Scenario.body_fails)
             Scenario.b_init in
  AuthFixture.calls (snd r)
  = AuthFixture.ContextClose 0
    :: AuthFixture.TestBody 0 Scenario.body_fails
    :: AuthFixture.calls
         (snd (AuthFixture.authenticatedPage_setup Scenario.driver_ok
                 Scenario.no_env Scenario.b_init))
  /\ In (AuthFixture.NewContext 0)
       (AuthFixture.calls
          (snd (AuthFixture.authenticatedPage_setup Scenario.driver_ok
                  Scenario.no_env Scenario.b_init)))
  /\ AuthFixture.count_closes 0 (AuthFixture.calls (snd r)) = 1%nat.
Proof.
  apply (authenticatedPage_closes_context Scenario.driver_ok
           Scenario.no_env Scenario.b_init Scenario.body_fails 0%nat 0%nat).
  reflexivity.
Defined.

(** The same run with a [use] that rejects: the context is left open. *)
Example authenticatedPage_use_rejects :
  let r := AuthFixture.authenticatedPage Scenario.driver_ok Scenario.no_env
             Scenario.use_rejects Scenario.b_init in
  fst r = Throw (mkError "use rejected")
  /\ AuthFixture.count_closes 0 (AuthFixture.calls (snd r)) = 0%nat.
Proof. vm_compute. split; reflexivity. Qed.

(** * parseInt reads back what the number conversion writes *)








(** * Properties of HeaderComponent.getNotificationCount *)

Section HeaderFacts.

Import HeaderComponent.


End HeaderFacts.

(** ** The badge on concrete runs *)


Example getNotificationCount_hidden :
  HeaderComponent.getNotificationCount Scenario.badge_hidden []
  = (Return (Num 0), [HeaderComponent.CallIsVisible]).
Proof. reflexivity. Qed.

Example getNotificationCount_no_text :
  HeaderComponent.getNotificationCount Scenario.badge_empty []
  = (Return (Num 0),
     [HeaderComponent.CallTextContent; HeaderComponent.CallIsVisible]).
Proof. reflexivity. Qed.

(** parseInt reads the digits a text begins with: "99+" counts as 99, and
    a text without digits gives NaN. *)
Example parseInt_prefix : parseInt "99+" = Num 99.
Proof. reflexivity. Qed.

Example parseInt_no_digits : parseInt "new" = NaN.
Proof. reflexivity. Qed.

(** * Properties of the waiters that poll a locator *)

Section ReadFacts.

Import LocatorWaits.

Variable timer_lag : nat -> nat.
Variable A : Type.
Variable read : nat -> Z -> settled A.
Variable read_cost : nat -> nat.

Local Abbreviation await_read := (await_read A read read_cost).
Local Abbreviation poll_read := (poll_read timer_lag A read read_cost).
Local Abbreviation after_read := (after_read A read read_cost).
Local Abbreviation read_miss := (read_miss timer_lag A read read_cost).
Local Abbreviation read_misses := (read_misses timer_lag A read read_cost).

Lemma now_after_read i w :
  now (after_read i w) = now w + Z.of_nat (read_cost i).
Proof.
  unfold LocatorWaits.after_read, LocatorWaits.await_read.
  destruct (read i (now w)); reflexivity.
Qed.

Lemma log_after_read i w : log (after_read i w) = EvCondition i :: log w.
Proof.
  unfold LocatorWaits.after_read, LocatorWaits.await_read.
  destruct (read i (now w)); reflexivity.
Qed.

Lemma timers_after_read i w : timers_set (after_read i w) = timers_set w.
Proof.
  unfold LocatorWaits.after_read, LocatorWaits.await_read.
  destruct (read i (now w)); reflexivity.
Qed.

Lemma now_read_miss i w :
  now (read_miss i w)
  = now w + Z.of_nat (read_cost i) + WaitUtil.POLL_INTERVAL
    + Z.of_nat (timer_lag (timers_set w)).
Proof.
  unfold LocatorWaits.read_miss, WaitUtil.sleep; simpl.
  rewrite now_after_read, timers_after_read. reflexivity.
Qed.

Lemma log_read_miss i w :
  log (read_miss i w)
  = EvSleep WaitUtil.POLL_INTERVAL :: EvCondition i :: log w.
Proof.
  unfold LocatorWaits.read_miss, WaitUtil.sleep; simpl.
  now rewrite log_after_read.
Qed.

(** One iteration of the loop of a locator waiter. *)
Lemma poll_read_S f i start timeout done giveUp w :
  poll_read (S f) i start timeout done giveUp w =
  if now w - start <? timeout then
    match read i (now w) with
    | Fulfilled v =>
        if done v then (Return tt, after_read i w)
        else poll_read f (S i) start timeout done giveUp (read_miss i w)
    | Rejected e => (Throw e, after_read i w)
    end
  else giveUp i w.
Proof.
  cbn [LocatorWaits.poll_read].
  unfold bind, dateNow, ret, LocatorWaits.read_miss,
    LocatorWaits.after_read, LocatorWaits.await_read.
  destruct (now w - start <? timeout); [|reflexivity].
  destruct (read i (now w)) as [v|e]; [|reflexivity].
  destruct (done v); reflexivity.
Qed.

Lemma read_misses_add i d e w :
  read_misses i (d + e) w = read_misses (i + d) e (read_misses i d w).
Proof.
  revert i w; induction d as [|d IH]; intros i w; simpl.
  - now rewrite Nat.add_0_r.
  - rewrite IH. f_equal. lia.
Qed.

Lemma read_misses_last i j w :
  read_misses i (S j) w = read_miss (i + j) (read_misses i j w).
Proof.
  replace (S j) with (j + 1)%nat by lia.
  now rewrite read_misses_add.
Qed.

Lemma now_read_misses i j w :
  now w + WaitUtil.POLL_INTERVAL * Z.of_nat j <= now (read_misses i j w).
Proof.
  revert i w; induction j as [|j IH]; intros i w.
  - simpl. lia.
  - cbn [LocatorWaits.read_misses]. specialize (IH (S i) (read_miss i w)).
    rewrite now_read_miss in IH. unfold WaitUtil.POLL_INTERVAL in *. lia.
Qed.

Lemma now_read_misses_mono i d j w :
  (d <= j)%nat -> now (read_misses i d w) <= now (read_misses i j w).
Proof.
  intros H. replace j with (d + (j - d))%nat by lia.
  rewrite read_misses_add.
  pose proof (now_read_misses (i + d) (j - d) (read_misses i d w)).
  unfold WaitUtil.POLL_INTERVAL in *. lia.
Qed.

Lemma evals_read_misses i j w :
  count_evals (log (read_misses i j w)) = (count_evals (log w) + j)%nat.
Proof.
  revert i w; induction j as [|j IH]; intros i w; simpl.
  - lia.
  - rewrite IH, log_read_miss. simpl. lia.
Qed.

Lemma sleeps_read_misses i j w :
  sleeps_of (log (read_misses i j w))
  = repeat WaitUtil.POLL_INTERVAL j ++ sleeps_of (log w).
Proof.
  revert i w; induction j as [|j IH]; intros i w; simpl.
  - reflexivity.
  - rewrite IH, log_read_miss. simpl.
    change (WaitUtil.POLL_INTERVAL :: sleeps_of (log w))
      with ([WaitUtil.POLL_INTERVAL] ++ sleeps_of (log w)).
    rewrite app_assoc. f_equal.
    now rewrite <- repeat_cons.
Qed.

(** [j] reads that do not end the wait, each begun within the budget,
    take the loop from [(i, w)] to [(i + j, read_misses i j w)]. *)
Lemma poll_read_misses done giveUp j : forall f i start timeout w,
  (forall d, (d < j)%nat ->
     exists v, read (i + d) (now (read_misses i d w)) = Fulfilled v
               /\ done v = false) ->
  (forall d, (d < j)%nat -> now (read_misses i d w) - start < timeout) ->
  poll_read (j + f) i start timeout done giveUp w
  = poll_read f (i + j) start timeout done giveUp (read_misses i j w).
Proof.
  induction j as [|j IH]; intros f i start timeout w Hmiss Hbudget.
  - simpl. now rewrite Nat.add_0_r.
  - change (S j + f)%nat with (S (j + f)). rewrite poll_read_S.
    pose proof (Hbudget O ltac:(lia)) as Hb. simpl in Hb.
    apply Z.ltb_lt in Hb. rewrite Hb.
    destruct (Hmiss O ltac:(lia)) as [v [Hv Hd]]. simpl in Hv.
    rewrite Nat.add_0_r in Hv. rewrite Hv, Hd.
    rewrite IH.
    + cbn [LocatorWaits.read_misses]. f_equal. lia.
    + intros d Hd'. specialize (Hmiss (S d) ltac:(lia)).
      cbn [LocatorWaits.read_misses] in Hmiss.
      now replace (S i + d)%nat with (i + S d)%nat by lia.
    + intros d Hd'. apply (Hbudget (S d)). lia.
Qed.

Lemma read_fuel_enough k w0 timeout :
  now (read_misses 0 k w0) - now w0 < timeout ->
  exists f, WaitUtil.poll_fuel timeout = (k + S f)%nat.
Proof.
  intros H. pose proof (now_read_misses 0 k w0) as Hn.
  unfold WaitUtil.poll_fuel.
  assert (Z.of_nat k <= timeout / WaitUtil.POLL_INTERVAL) as Hk.
  { apply Z.div_le_lower_bound; unfold WaitUtil.POLL_INTERVAL in *; lia. }
  set (q := timeout / WaitUtil.POLL_INTERVAL) in *.
  clearbody q. clear H Hn.
  exists (S (Z.to_nat q - k)). lia.
Qed.

(** After [j] reads that do not end the wait the loop stands at the
    check of index [j], with fuel left. *)
Lemma poll_read_reaches done giveUp timeout w0 j :
  (forall d, (d < j)%nat ->
     exists v, read d (now (read_misses 0 d w0)) = Fulfilled v
               /\ done v = false) ->
  now (read_misses 0 j w0) - now w0 < timeout ->
  exists f,
    poll_read (WaitUtil.poll_fuel timeout) 0 (now w0) timeout done giveUp w0
    = poll_read (S f) j (now w0) timeout done giveUp (read_misses 0 j w0).
Proof.
  intros Hmiss Hbudget.
  destruct (read_fuel_enough j w0 timeout Hbudget) as [f Hf].
  exists f. rewrite Hf.
  rewrite poll_read_misses; [reflexivity | exact Hmiss |].
  intros d Hd.
  pose proof (now_read_misses_mono 0 d j w0 ltac:(lia)). lia.
Qed.

End ReadFacts.

Section ReadOrder.

Import LocatorWaits.

Variable timer_lag : nat -> nat.
Variable A : Type.
Variable read : nat -> Z -> settled A.
Variable read_cost : nat -> nat.

Local Abbreviation poll_read := (poll_read timer_lag A read read_cost).
Local Abbreviation after_read := (after_read A read read_cost).
Local Abbreviation read_miss := (read_miss timer_lag A read read_cost).

(** A wait that returns has read at least once, and the clock has not
    gone back. *)
Lemma poll_read_return done giveUp start timeout
  (HgiveUp : forall i w, fst (giveUp i w) <> Return tt) f :
  forall i w w',
    poll_read f i start timeout done giveUp w = (Return tt, w') ->
    now w <= now w'
    /\ (count_evals (log w) < count_evals (log w'))%nat.
Proof.
  induction f as [|f IH]; intros i w w' Hrun; [discriminate Hrun|].
  rewrite poll_read_S in Hrun.
  destruct (now w - start <? timeout).
  - destruct (read i (now w)) as [v|e] eqn:Hv; [|discriminate Hrun].
    destruct (done v).
    + injection Hrun as <-.
      rewrite now_after_read, log_after_read. simpl. lia.
    + apply IH in Hrun. rewrite now_read_miss, log_read_miss in Hrun.
      unfold WaitUtil.POLL_INTERVAL in Hrun. simpl in Hrun. lia.
  - exfalso. apply (HgiveUp i w). now rewrite Hrun.
Qed.

(** A wait with a weaker test returns whenever the wait with the stronger
    test does, no later and with no more reads. *)
Lemma poll_read_weaker done1 done2 giveUp1 giveUp2 start timeout
  (Hweaker : forall v, done1 v = true -> done2 v = true)
  (HgiveUp : forall i w, fst (giveUp1 i w) <> Return tt) f :
  forall i w w1,
    poll_read f i start timeout done1 giveUp1 w = (Return tt, w1) ->
    exists w2,
      poll_read f i start timeout done2 giveUp2 w = (Return tt, w2)
      /\ now w2 <= now w1
      /\ (count_evals (log w2) <= count_evals (log w1))%nat.
Proof.
  induction f as [|f IH]; intros i w w1 Hrun; [discriminate Hrun|].
  rewrite poll_read_S in Hrun. rewrite poll_read_S.
  destruct (now w - start <? timeout).
  - destruct (read i (now w)) as [v|e] eqn:Hv; [|discriminate Hrun].
    destruct (done1 v) eqn:Hd1.
    + rewrite (Hweaker v Hd1). injection Hrun as <-.
      exists (after_read i w). repeat split; lia.
    + destruct (done2 v).
      * exists (after_read i w). split; [reflexivity|].
        apply (poll_read_return done1 giveUp1 start timeout HgiveUp) in Hrun.
        rewrite now_read_miss, log_read_miss in Hrun.
        rewrite now_after_read, log_after_read.
        unfold WaitUtil.POLL_INTERVAL in Hrun. simpl in *. lia.
      * apply IH. exact Hrun.
  - exfalso. apply (HgiveUp i w). now rewrite Hrun.
Qed.

End ReadOrder.

Section TextFacts.

Import LocatorWaits.

Variable timer_lag : nat -> nat.
Variable textContent : nat -> Z -> settled (option string).
Variable textContent_cost : nat -> nat.

Local Abbreviation read_misses :=
  (read_misses timer_lag (option string) textContent textContent_cost).
Local Abbreviation after_read :=
  (after_read (option string) textContent textContent_cost).
Local Abbreviation waitForTextToChange :=
  (waitForTextToChange timer_lag textContent textContent_cost).

Lemma text_differs_same s : text_differs s (Some s) = false.
Proof. unfold text_differs. now rewrite String.eqb_refl. Qed.

Lemma text_differs_other s text :
  text <> Some s -> text_differs s text = true.
Proof.
  intros H. destruct text as [s'|]; [|reflexivity].
  unfold text_differs. destruct (String.eqb s' s) eqn:E; [|reflexivity].
  apply String.eqb_eq in E. congruence.
Qed.

(** X1.  When textContent() gives the initial text at the first [j]
    reads and something else at the next one, begun within the budget,
    waitForTextToChange returns right after that read, having read
    [j + 1] times and slept POLL_INTERVAL [j] times.  Something else is
    any other string, and also null: a target without text counts as
    changed. *)
Theorem waitForTextToChange_first_change initialText timeout w0 j text
  (Hsame : forall d, (d < j)%nat ->
     textContent d (now (read_misses 0 d w0)) = Fulfilled (Some initialText))
  (Hchange : textContent j (now (read_misses 0 j w0)) = Fulfilled text)
  (Hdiff : text <> Some initialText)
  (Hbudget : now (read_misses 0 j w0) - now w0 < timeout) :
  let r := waitForTextToChange initialText (Some timeout) w0 in
  fst r = Return tt
  /\ count_evals (log (snd r)) = (count_evals (log w0) + S j)%nat
  /\ sleeps_of (log (snd r))
     = repeat WaitUtil.POLL_INTERVAL j ++ sleeps_of (log w0)
  /\ hd_error (log (snd r)) = Some (EvCondition j).
Proof.
  cbv zeta. unfold LocatorWaits.waitForTextToChange, bind, dateNow.
  cbn [WaitUtil.timeout_or_default].
  match goal with
  | |- context [LocatorWaits.poll_read _ _ _ _ _ _ _ _ ?d ?g] =>
      destruct (poll_read_reaches timer_lag (option string) textContent
                  textContent_cost d g timeout w0 j) as [f Hf]
  end.
  { intros d Hd. exists (Some initialText).
    split; [now apply Hsame | apply text_differs_same]. }
  { exact Hbudget. }
  rewrite Hf, poll_read_S.
  apply Z.ltb_lt in Hbudget. rewrite Hbudget, Hchange.
  rewrite (text_differs_other _ _ Hdiff). cbn [fst snd].
  rewrite log_after_read. cbn [count_evals sleeps_of hd_error].
  rewrite evals_read_misses, sleeps_read_misses.
  repeat split; lia.
Qed.

End TextFacts.


Section CountFacts.

Import LocatorWaits.

Variable timer_lag : nat -> nat.
Variable count : nat -> Z -> settled Z.
Variable count_cost : nat -> nat.

Local Abbreviation read_misses :=
  (read_misses timer_lag Z count count_cost).
Local Abbreviation after_read := (after_read Z count count_cost).
Local Abbreviation waitForElementCount :=
  (waitForElementCount timer_lag count count_cost).
Local Abbreviation waitForMinimumElementCount :=
  (waitForMinimumElementCount timer_lag count count_cost).

Lemma count_giveUp_throws describe i w :
  fst (count_giveUp count count_cost describe i w) <> Return tt.
Proof.
  unfold count_giveUp, bind, throw, LocatorWaits.await_read.
  destruct (count i (now w)); discriminate.
Qed.

(** X2.  When count() differs from the expected count at each of the [j]
    reads the loop makes within the budget, waitForElementCount reads the
    count once more behind the loop and throws the Error
    'Expected <expected> elements, but found <m> within <timeout>ms',
    [m] being that last read: [j + 1] reads and [j] sleeps in all.
    Nothing compares [m] with the expected count, so the message can name
    the expected count itself as the one found. *)
Theorem waitForElementCount_times_out expectedCount timeout w0 j m
  (Hmiss : forall d, (d < j)%nat ->
     exists c, count d (now (read_misses 0 d w0)) = Fulfilled c
               /\ c <> expectedCount)
  (Hwithin : forall d, (d < j)%nat ->
     now (read_misses 0 d w0) - now w0 < timeout)
  (Hspent : timeout <= now (read_misses 0 j w0) - now w0)
  (Hlast : count j (now (read_misses 0 j w0)) = Fulfilled m) :
  let r := waitForElementCount expectedCount (Some timeout) w0 in
  fst r = Throw (mkError ("Expected " ++ number_toString expectedCount
                          ++ " elements, but found " ++ number_toString m
                          ++ " within " ++ number_toString timeout
                          ++ "ms")%string)
  /\ count_evals (log (snd r)) = (count_evals (log w0) + S j)%nat
  /\ sleeps_of (log (snd r))
     = repeat WaitUtil.POLL_INTERVAL j ++ sleeps_of (log w0)
  /\ hd_error (log (snd r)) = Some (EvCondition j).
Proof.
  cbv zeta. unfold LocatorWaits.waitForElementCount, bind, dateNow.
  cbn [WaitUtil.timeout_or_default].
  assert (exists f, WaitUtil.poll_fuel timeout = (j + S f)%nat) as [f Hf].
  { destruct j as [|j'].
    - unfold WaitUtil.poll_fuel.
      set (q := timeout / WaitUtil.POLL_INTERVAL). clearbody q.
      exists (S (Z.to_nat q)). lia.
    - pose proof (Hwithin j' ltac:(lia)) as Hb.
      pose proof (now_read_misses timer_lag Z count count_cost 0 j' w0)
        as Hn.
      unfold WaitUtil.poll_fuel.
      assert (Z.of_nat j' <= timeout / WaitUtil.POLL_INTERVAL) as Hk.
      { apply Z.div_le_lower_bound;
          unfold WaitUtil.POLL_INTERVAL in *; lia. }
      set (q := timeout / WaitUtil.POLL_INTERVAL) in *.
      clearbody q. clear Hb Hn.
      exists (Z.to_nat q - j')%nat. lia. }
  rewrite Hf. rewrite poll_read_misses.
  2:{ intros d Hd. destruct (Hmiss d Hd) as [c [Hc Hne]].
      exists c. split; [exact Hc|]. now apply Z.eqb_neq. }
  2:{ exact Hwithin. }
  rewrite poll_read_S.
  replace (now (read_misses 0 j w0) - now w0 <? timeout) with false
    by (symmetry; apply Z.ltb_ge; exact Hspent).
  cbn [Nat.add].
  unfold count_giveUp, bind, throw, LocatorWaits.await_read.
  rewrite Hlast. cbn [fst snd log count_evals sleeps_of hd_error].
  rewrite evals_read_misses, sleeps_read_misses.
  repeat split; lia.
Qed.

(** X3.  On the same locator and with the same number and timeout,
    waitForMinimumElementCount returns whenever waitForElementCount does,
    no later and with no more reads of the count. *)
Theorem waitForMinimumElementCount_no_later n timeout w0
  (Hexact : fst (waitForElementCount n timeout w0) = Return tt) :
  fst (waitForMinimumElementCount n timeout w0) = Return tt
  /\ now (snd (waitForMinimumElementCount n timeout w0))
     <= now (snd (waitForElementCount n timeout w0))
  /\ (count_evals (log (snd (waitForMinimumElementCount n timeout w0)))
      <= count_evals (log (snd (waitForElementCount n timeout w0))))%nat.
Proof.
  unfold LocatorWaits.waitForElementCount,
    LocatorWaits.waitForMinimumElementCount, bind, dateNow in *.
  match type of Hexact with
  | fst (LocatorWaits.poll_read _ _ _ _ ?f ?i ?s ?t ?d1 ?g1 ?w) = _ =>
      destruct (LocatorWaits.poll_read timer_lag Z count count_cost
                  f i s t d1 g1 w) as [r1 w1] eqn:Hrun
  end.
  cbn [fst] in Hexact. subst r1.
  eapply poll_read_weaker in Hrun.
  - destruct Hrun as [w2 [H2 [Hnow Hcnt]]]. rewrite H2.
    cbn [fst snd]. repeat split; assumption.
  - intros v Hv. apply Z.eqb_eq in Hv. subst v. apply Z.leb_refl.
  - intros i w. apply count_giveUp_throws.
Qed.

End CountFacts.

(** ** The locator waiters on concrete runs *)

(** A text that is "Loading..." at 0 and 500 ms and null at 1000 ms. *)
Lemma waitForTextToChange_first_change_witness :
  let r := LocatorWaits.waitForTextToChange Scenario.punctual
             (Scenario.text_until 700) Scenario.instant
             "Loading..." (Some 5000) Scenario.w_init in
  fst r = Return tt
  /\ count_evals (log (snd r)) = 3%nat
  /\ sleeps_of (log (snd r)) = [500; 500]
  /\ hd_error (log (snd r)) = Some (EvCondition 2).
Proof.
  apply (waitForTextToChange_first_change Scenario.punctual
           (Scenario.text_until 700) Scenario.instant
           "Loading..." 5000 Scenario.w_init 2 None).
  - intros d Hd. destruct d as [|[|d]];
      [reflexivity | reflexivity | exfalso; lia].
  - reflexivity.
  - discriminate.
  - vm_compute. reflexivity.
Defined.

(** A count that reaches the expected 3 at 1100 ms, between the last read
    of the loop at 1000 ms and the read for the message at 1500 ms. *)
Lemma waitForElementCount_times_out_witness :
  let r := LocatorWaits.waitForElementCount Scenario.punctual
             (Scenario.count_grows 1100 3) Scenario.instant
             3 (Some 1200) Scenario.w_init in
  fst r = Throw (mkError
                   "Expected 3 elements, but found 3 within 1200ms")
  /\ count_evals (log (snd r)) = 4%nat
  /\ sleeps_of (log (snd r)) = [500; 500; 500]
  /\ hd_error (log (snd r)) = Some (EvCondition 3).
Proof.
  apply (waitForElementCount_times_out Scenario.punctual
           (Scenario.count_grows 1100 3) Scenario.instant
           3 1200 Scenario.w_init 3 3).
  - intros d Hd. exists 0.
    destruct d as [|[|[|d]]];
      [split; [reflexivity | discriminate] ..| exfalso; lia].
  - intros d Hd.
    destruct d as [|[|[|d]]];
      [vm_compute; reflexivity ..| exfalso; lia].
  - vm_compute. discriminate.
  - reflexivity.
Defined.

(** A count of 5 at 0 ms and of 3 from 500 ms on: the wait for exactly 3
    returns at 500 ms, the wait for at least 3 at once. *)
Lemma waitForMinimumElementCount_no_later_witness :
  fst (LocatorWaits.waitForMinimumElementCount Scenario.punctual
         Scenario.count_falls Scenario.instant 3 (Some 2000)
         Scenario.w_init) = Return tt
  /\ now (snd (LocatorWaits.waitForMinimumElementCount Scenario.punctual
                 Scenario.count_falls Scenario.instant 3 (Some 2000)
                 Scenario.w_init))
     <= now (snd (LocatorWaits.waitForElementCount Scenario.punctual
                    Scenario.count_falls Scenario.instant 3 (Some 2000)
                    Scenario.w_init))
  /\ Nat.le
       (count_evals
          (log (snd (LocatorWaits.waitForMinimumElementCount
                       Scenario.punctual Scenario.count_falls
                       Scenario.instant 3 (Some 2000) Scenario.w_init))))
       (count_evals
          (log (snd (LocatorWaits.waitForElementCount
                       Scenario.punctual Scenario.count_falls
                       Scenario.instant 3 (Some 2000) Scenario.w_init)))).
Proof.
  apply (waitForMinimumElementCount_no_later Scenario.punctual
           Scenario.count_falls Scenario.instant 3 (Some 2000)
           Scenario.w_init).
  reflexivity.
Defined.

(** * Properties of the header's logout *)

Section HeaderActionFacts.

Import HeaderComponent HeaderActions.

Variable fails : nat -> option Error.

(** X4.  However the calls to the page go, logout returns normally
    exactly when one click on the logout button has succeeded, and then
    it has succeeded once: the click from the menu and the direct click
    are never both done.  When logout throws, no click on the logout
    button has succeeded, the last call is the direct click, without a
    timeout option, and the error is the one of that click; the error of
    the way through the menu is not seen.  At most two clicks on the
    logout button are tried. *)
Theorem logout_clicks_once (l0 : header_log) :
  let r := logout fails l0 in
  let done l := List.length (filter is_logout_done l) in
  let tried l := List.length (filter is_logout_click l) in
  (fst r = Return tt /\ done (snd r) = S (done l0)
   \/ (exists e, fst r = Throw e
                 /\ fails (pred (List.length (snd r))) = Some e
                 /\ hd_error (snd r) = Some (LogoutButtonClick None, false))
      /\ done (snd r) = done l0)
  /\ (tried (snd r) <= tried l0 + 2)%nat.
Proof.
  cbv zeta.
  unfold logout, openUserMenu, try_catch, bind, perform.
  destruct (fails (List.length l0)) as [e0|] eqn:E0; cbn [List.length].
  - destruct (fails (S (List.length l0))) as [e1|] eqn:E1;
      cbn [fst snd filter is_logout_done is_logout_click List.length
             hd_error pred].
    + split; [right; split; [exists e1; auto | reflexivity] | lia].
    + split; [left; split; reflexivity | lia].
  - destruct (fails (S (List.length l0))) as [e1|] eqn:E1;
      cbn [List.length].
    + destruct (fails (S (S (List.length l0)))) as [e2|] eqn:E2;
        cbn [fst snd filter is_logout_done is_logout_click List.length
               hd_error pred].
      * split; [right; split; [exists e2; auto | reflexivity] | lia].
      * split; [left; split; reflexivity | lia].
    + destruct (fails (S (S (List.length l0)))) as [e2|] eqn:E2;
        cbn [List.length].
      * destruct (fails (S (S (S (List.length l0))))) as [e3|] eqn:E3;
          cbn [fst snd filter is_logout_done is_logout_click List.length
                 hd_error pred].
        -- split; [right; split; [exists e3; auto | reflexivity] | lia].
        -- split; [left; split; reflexivity | lia].
      * cbn [fst snd filter is_logout_done is_logout_click List.length
               hd_error pred].
        split; [left; split; reflexivity | lia].
Qed.

End HeaderActionFacts.

(** * More on the fixtures *)

Section FixtureFailure.

Import AuthFixture.

Variable driver_fails : nat -> option Error.
Variable env : string -> option string.

Local Abbreviation authenticatedPage_setup :=
  (AuthFixture.authenticatedPage_setup driver_fails env).
Local Abbreviation authenticatedPage :=
  (AuthFixture.authenticatedPage driver_fails env).

(** However it ends, the setup asks the browser for a context first and
    asks for nothing but what a setup does: no close of a context and no
    run of the test body. *)
Lemma setup_calls b0 r b1 :
  authenticatedPage_setup b0 = (r, b1) ->
  (forall c, count_closes c (calls b1) = count_closes c (calls b0))
  /\ (forall ev, In ev (calls b1) ->
        In ev (calls b0)
        \/ (forall c, ev <> ContextClose c)
           /\ (forall p v, ev <> TestBody p v))
  /\ In (NewContext (contexts_made b0)) (calls b1).
Proof.
  unfold AuthFixture.authenticatedPage_setup, login, goto, waitForPageLoad,
    BasePage_goto, fillUsername, fillPassword, clickLogin, newContext,
    newPage, new_LoginPage, bind, ret, perform.
  cbn [lp_page url calls contexts_made pages_made].
  repeat (match goal with
          | |- context [driver_fails ?n] => destruct (driver_fails n)
          end; cbv beta iota; cbn [calls contexts_made pages_made]).
  all: intros H; injection H as _ <-; cbn [calls].
  all: split; [intros c; unfold count_closes; reflexivity|].
  all: split; [|cbn [In]; tauto].
  all: intros ev Hin; cbn [In] in Hin.
  all: repeat (destruct Hin as [<-|Hin];
               [right; split; intros; discriminate|]).
  all: left; exact Hin.
Qed.

(** X5.  When the setup of authenticatedPage fails at any step, the
    fixture throws that error: [use] is not called, so the test body does
    not run, and no context is closed, although the browser had been
    asked for one.  A failed login leaves its context open. *)
Theorem authenticatedPage_setup_failure b0 e b1
  (use : nat -> M browser unit)
  (Hfail : authenticatedPage_setup b0 = (Throw e, b1)) :
  authenticatedPage use b0 = (Throw e, b1)
  /\ (forall c, count_closes c (calls b1) = count_closes c (calls b0))
  /\ (forall ev, In ev (calls b1) ->
        In ev (calls b0)
        \/ (forall c, ev <> ContextClose c)
           /\ (forall p v, ev <> TestBody p v))
  /\ In (NewContext (contexts_made b0)) (calls b1).
Proof.
  split; [|exact (setup_calls b0 _ b1 Hfail)].
  unfold AuthFixture.authenticatedPage, bind. now rewrite Hfail.
Qed.

End FixtureFailure.


Lemma authenticatedPage_setup_failure_witness :
  AuthFixture.authenticatedPage Scenario.login_rejected Scenario.no_env
    Scenario.use_rejects Scenario.b_init
  = (Throw (mkError "Timeout 10000ms exceeded"),
     snd (AuthFixture.authenticatedPage_setup Scenario.login_rejected
            Scenario.no_env Scenario.b_init))
  /\ (forall c,
        AuthFixture.count_closes c
          (AuthFixture.calls
             (snd (AuthFixture.authenticatedPage_setup Scenario.login_rejected
                     Scenario.no_env Scenario.b_init)))
        = AuthFixture.count_closes c (AuthFixture.calls Scenario.b_init))
  /\ (forall ev,
        In ev (AuthFixture.calls
                 (snd (AuthFixture.authenticatedPage_setup
                         Scenario.login_rejected Scenario.no_env
                         Scenario.b_init))) ->
        In ev (AuthFixture.calls Scenario.b_init)
        \/ (forall c, ev <> AuthFixture.ContextClose c)
           /\ (forall p v, ev <> AuthFixture.TestBody p v))
  /\ In (AuthFixture.NewContext
           (AuthFixture.contexts_made Scenario.b_init))
       (AuthFixture.calls
          (snd (AuthFixture.authenticatedPage_setup Scenario.login_rejected
                  Scenario.no_env Scenario.b_init))).
Proof.
  apply (authenticatedPage_setup_failure Scenario.login_rejected
           Scenario.no_env Scenario.b_init
           (mkError "Timeout 10000ms exceeded")).
  reflexivity.
Defined.

Section BaseFixtureFacts.

Import BaseFixture.

Variable driver_fails : nat -> option Error.
Variable env : string -> option string.

(** X6.  When the setup of the authenticatedPage fixture of
    base.fixtures.ts has succeeded and the runner has run the test body
    to its verdict, the teardown tries to log out, beginning with a click
    on the user profile menu, and the fixture returns normally however
    the logout goes: either the three calls of the logout have been made,
    or the first of them that failed is followed by the line
    'Logout cleanup skipped or failed' on the console and by nothing
    else.  A failure of the logout never reaches the test runner. *)
Theorem base_authenticatedPage_teardown l0 l1 verdict
  (Hready : authenticatedPage_setup driver_fails env l0 = (Return tt, l1)) :
  let r := authenticatedPage driver_fails env (runner_use verdict) l0 in
  let body := TestBody verdict :: l1 in
  let menu := LocatorClick UserProfileMenu false in
  let button := LocatorClick LogoutButton false in
  let idle := WaitForLoadState "networkidle" in
  let note := ConsoleLog "Logout cleanup skipped or failed" in
  fst r = Return tt
  /\ (snd r = idle :: button :: menu :: body
      \/ snd r = note :: idle :: button :: menu :: body
      \/ snd r = note :: button :: menu :: body
      \/ snd r = note :: menu :: body)
  /\ (hd_error (snd r) = Some note
      <-> exists n, (List.length body <= n < List.length body + 3)%nat
                    /\ driver_fails n <> None).
Proof.
  cbv zeta. unfold authenticatedPage, bind. rewrite Hready.
  unfold runner_use, try_catch, logout, openUserProfileMenu,
    waitForPageLoad, click, console_log, bind, perform.
  cbn [List.length].
  destruct (driver_fails (S (List.length l1))) as [e1|] eqn:E1;
    cbn [fst snd List.length].
  { split; [reflexivity|]. split; [tauto|].
    split; [intros _; exists (S (List.length l1)); split; [lia | congruence]
           | reflexivity]. }
  destruct (driver_fails (S (S (List.length l1)))) as [e2|] eqn:E2;
    cbn [fst snd List.length].
  { split; [reflexivity|]. split; [tauto|].
    split; [intros _; exists (S (S (List.length l1)));
            split; [lia | congruence]
           | reflexivity]. }
  destruct (driver_fails (S (S (S (List.length l1))))) as [e3|] eqn:E3;
    cbn [fst snd List.length].
  { split; [reflexivity|]. split; [tauto|].
    split; [intros _; exists (S (S (S (List.length l1))));
            split; [lia | congruence]
           | reflexivity]. }
  split; [reflexivity|]. split; [tauto|].
  cbn [hd_error]. split; [discriminate|].
  intros [m [Hm Hf]]. exfalso. apply Hf.
  assert (m = S (List.length l1) \/ m = S (S (List.length l1))
          \/ m = S (S (S (List.length l1)))) as [Hm1 | [Hm1 | Hm1]] by lia; rewrite Hm1;
    assumption.
Qed.

End BaseFixtureFacts.

(** A logout whose click on the logout button fails, after a test body
    that failed too. *)
Lemma base_authenticatedPage_teardown_witness :
  let r := BaseFixture.authenticatedPage Scenario.logout_broken
             Scenario.no_env
             (BaseFixture.runner_use Scenario.body_fails) [] in
  let body :=
    BaseFixture.TestBody Scenario.body_fails
    :: snd (BaseFixture.authenticatedPage_setup Scenario.logout_broken
              Scenario.no_env []) in
  let menu := BaseFixture.LocatorClick BaseFixture.UserProfileMenu false in
  let button := BaseFixture.LocatorClick BaseFixture.LogoutButton false in
  let idle := BaseFixture.WaitForLoadState "networkidle" in
  let note := BaseFixture.ConsoleLog "Logout cleanup skipped or failed" in
  fst r = Return tt
  /\ (snd r = idle :: button :: menu :: body
      \/ snd r = note :: idle :: button :: menu :: body
      \/ snd r = note :: button :: menu :: body
      \/ snd r = note :: menu :: body)
  /\ (hd_error (snd r) = Some note
      <-> exists n, (List.length body <= n < List.length body + 3)%nat
                    /\ Scenario.logout_broken n <> None).
Proof.
  apply (base_authenticatedPage_teardown Scenario.logout_broken
           Scenario.no_env []
           (snd (BaseFixture.authenticatedPage_setup Scenario.logout_broken
                   Scenario.no_env []))
           Scenario.body_fails).
  reflexivity.
Defined.

Example base_authenticatedPage_logout_fails :
  BaseFixture.authenticatedPage Scenario.logout_broken Scenario.no_env
    (BaseFixture.runner_use Scenario.body_fails) []
  = (Return tt,
     [BaseFixture.ConsoleLog "Logout cleanup skipped or failed";
      BaseFixture.LocatorClick BaseFixture.LogoutButton false;
      BaseFixture.LocatorClick BaseFixture.UserProfileMenu false;
      BaseFixture.TestBody Scenario.body_fails;
      BaseFixture.WaitForLoadState "networkidle";
      BaseFixture.LocatorClick BaseFixture.LoginButton false;
      BaseFixture.LocatorFill BaseFixture.PasswordInput "Test@123";
      BaseFixture.LocatorFill BaseFixture.UsernameInput "testuser@qa.com";
      BaseFixture.WaitForLoadState "networkidle";
      BaseFixture.PageGoto "/login"]).
Proof. reflexivity. Qed.
